(** * Verification of [scripts/extract_training_data.py]

    A shallow embedding of the [ConversationExtractor] class: the record
    loader, the content extractor, the thread reconstructor, the quality
    filter and the formatter, followed by the properties of the
    specification that were checked against it.

    Conventions of the embedding.
    - A Python [str] is a Rocq [string]; a character is a code point below
      256, and [isspace] and [lower] follow Python on that range.
    - A decoded JSON value is a [json]; an object is an association list
      read by its first binding of a key.  Numbers are the integer literals.
    - A Python exception is the [Raise] outcome of the [res] monad; a
      [while] loop takes fuel and answers [OutOfFuel] when the fuel runs
      out before the loop ends.
    - A reference to a record of a session is the record together with its
      position in the session's list, so that two records with equal
      fields remain distinct objects. *)

From Stdlib Require Import List String Ascii ZArith Lia Bool Arith PeanoNat.
Import ListNotations.

Local Open Scope string_scope.
Local Open Scope list_scope.

(** ** Outcomes of Python code *)

Inductive exn : Type :=
| KeyError
| TypeError
| AttributeError
| JSONDecodeError
| ZeroDivisionError.

Inductive res (A : Type) : Type :=
| Ret (a : A)
| Raise (e : exn)
| OutOfFuel.

Arguments Ret {A} a.
Arguments Raise {A} e.
Arguments OutOfFuel {A}.

Definition bind {A B : Type} (c : res A) (k : A -> res B) : res B :=
  match c with
  | Ret a => k a
  | Raise e => Raise e
  | OutOfFuel => OutOfFuel
  end.

Notation "x <- c1 ;; c2" := (bind c1 (fun x => c2))
  (at level 61, c1 at next level, right associativity).
Notation "' pat <- c1 ;; c2" := (bind c1 (fun x => match x with pat => c2 end))
  (at level 61, pat pattern, c1 at next level, right associativity).

(** ** Python strings *)

Definition nl : string := String "010" EmptyString.

(** [str.isspace] on one character. *)
Definition isspace (c : ascii) : bool :=
  let n := nat_of_ascii c in
  (((9 <=? n) && (n <=? 13)) || ((28 <=? n) && (n <=? 32))
   || (n =? 133) || (n =? 160))%nat.

(** [str.lower] on one character. *)
Definition lower_char (c : ascii) : ascii :=
  let n := nat_of_ascii c in
  if (((65 <=? n) && (n <=? 90))
      || ((192 <=? n) && (n <=? 222) && negb (n =? 215)))%nat
  then ascii_of_nat (n + 32) else c.

Fixpoint lower (s : string) : string :=
  match s with
  | EmptyString => EmptyString
  | String c s' => String (lower_char c) (lower s')
  end.

Fixpoint lstrip (s : string) : string :=
  match s with
  | EmptyString => EmptyString
  | String c s' => if isspace c then lstrip s' else s
  end.

Fixpoint rstrip (s : string) : string :=
  match s with
  | EmptyString => EmptyString
  | String c s' =>
      match rstrip s' with
      | EmptyString => if isspace c then EmptyString else String c EmptyString
      | r => String c r
      end
  end.

(** [s.strip()] *)
Definition strip (s : string) : string := rstrip (lstrip s).

(** [s.split()]: [w] is the word being read, if any. *)
Fixpoint split_from (w : option string) (s : string) : list string :=
  match s with
  | EmptyString => match w with Some x => [x] | None => [] end
  | String c s' =>
      if isspace c then
        match w with
        | Some x => x :: split_from None s'
        | None => split_from None s'
        end
      else
        match w with
        | Some x => split_from (Some (x ++ String c EmptyString)%string) s'
        | None => split_from (Some (String c EmptyString)) s'
        end
  end.

Definition split (s : string) : list string := split_from None s.

(** [needle in hay] *)
Fixpoint contains (needle hay : string) : bool :=
  String.prefix needle hay
  || match hay with
     | EmptyString => false
     | String _ hay' => contains needle hay'
     end.

(** [sep.join(l)] on a list of strings *)
Fixpoint join (sep : string) (l : list string) : string :=
  match l with
  | [] => EmptyString
  | [x] => x
  | x :: l' => (x ++ sep ++ join sep l')%string
  end.

Definition str_truthy (s : string) : bool :=
  match s with EmptyString => false | _ => true end.

(** ** Decoded JSON *)

#[warnings="-register-all"]
Inductive json : Type :=
| JNull
| JBool (b : bool)
| JNum (n : Z)
| JStr (s : string)
| JArr (l : list json)
| JObj (o : list (string * json)).

Definition dict : Type := list (string * json).

Fixpoint lookup (d : dict) (k : string) : option json :=
  match d with
  | [] => None
  | (k', v) :: d' => if String.eqb k' k then Some v else lookup d' k
  end.

(** [d.get(k, default)] *)
Definition get (d : dict) (k : string) (default : json) : json :=
  match lookup d k with Some v => v | None => default end.

(** [d[k]] *)
Definition getitem (d : dict) (k : string) : res json :=
  match lookup d k with Some v => Ret v | None => Raise KeyError end.

(** [v.get(k, default)] on a value that may not be a dict *)
Definition attr_get (v : json) (k : string) (default : json) : res json :=
  match v with
  | JObj d => Ret (get d k default)
  | _ => Raise AttributeError
  end.

(** [v == s] for a string literal [s] *)
Definition eq_str (v : json) (s : string) : bool :=
  match v with JStr x => String.eqb x s | _ => false end.

(** Truth value of [v] *)
Definition truthy (v : json) : bool :=
  match v with
  | JNull => false
  | JBool b => b
  | JNum n => negb (n =? 0)%Z
  | JStr s => str_truthy s
  | JArr l => match l with [] => false | _ => true end
  | JObj o => match o with [] => false | _ => true end
  end.

Definition hashable (v : json) : bool :=
  match v with JArr _ | JObj _ => false | _ => true end.

Definition num_of (v : json) : option Z :=
  match v with
  | JBool b => Some (if b then 1 else 0)%Z
  | JNum n => Some n
  | _ => None
  end.

(** [v == k] where one side is a dict key, hence neither a list nor a
    dict: a list or a dict on the other side is then different from it. *)
Definition key_eq (v k : json) : bool :=
  match v, k with
  | JNull, JNull => true
  | JStr a, JStr b => String.eqb a b
  | _, _ =>
      match num_of v, num_of k with
      | Some a, Some b => (a =? b)%Z
      | _, _ => false
      end
  end.

(** [for x in v]: the items a loop over [v] sees. *)
Definition iterate (v : json) : res (list json) :=
  match v with
  | JArr l => Ret l
  | JObj o => Ret (map (fun kv => JStr (fst kv)) o)
  | JStr s => Ret (map (fun c => JStr (String c EmptyString)) (list_ascii_of_string s))
  | _ => Raise TypeError
  end.

(** [sep.join(l)] where the items may not all be strings *)
Fixpoint strings_of (l : list json) : res (list string) :=
  match l with
  | [] => Ret []
  | JStr s :: l' => r <- strings_of l' ;; Ret (s :: r)
  | _ :: _ => Raise TypeError
  end.

Definition join_values (sep : string) (l : list json) : res string :=
  r <- strings_of l ;; Ret (join sep r).

(** ** The extractor *)

Record config : Type := { min_turns : Z; min_tokens : Z }.

Definition default_config : config := {| min_turns := 3; min_tokens := 50 |}.

Inductive role : Type := user | assistant.

Record turn : Type := {
  turn_role : role;
  content : string;
  timestamp : json;
  uuid : json
}.

Definition conversation : Type := list turn.

Section Extractor.

(** [str(v)] for a decoded value that is not a string; it is only read
    when the name of a [tool_use] block is not a string. *)
Variable py_str : json -> string.

(** [json.loads]: [None] when the line does not decode. *)
Variable json_loads : string -> option json.

Definition format_value (v : json) : string :=
  match v with JStr s => s | _ => py_str v end.

(** Body of the loop over the content blocks of a user message. *)
Fixpoint user_texts (parts : list json) (texts : list json) : list json :=
  match parts with
  | [] => texts
  | JObj part :: rest =>
      if eq_str (get part "type" JNull) "text"
      then user_texts rest (texts ++ [get part "text" (JStr "")])
      else user_texts rest texts
  | _ :: rest => user_texts rest texts
  end.

(** Body of the loop over the content blocks of an assistant message. *)
Fixpoint assistant_blocks (blocks : list json) (texts : list json)
    (tool_uses : list string) : res (list json * list string) :=
  match blocks with
  | [] => Ret (texts, tool_uses)
  | block :: rest =>
      ty <- attr_get block "type" JNull ;;
      if eq_str ty "text" then
        t <- attr_get block "text" (JStr "") ;;
        assistant_blocks rest (texts ++ [t]) tool_uses
      else
        ty' <- attr_get block "type" JNull ;;
        if eq_str ty' "tool_use" then
          tool_name <- attr_get block "name" (JStr "") ;;
          tool_input <- attr_get block "input" (JObj []) ;;
          assistant_blocks rest texts
            (tool_uses ++ [("[TOOL: " ++ format_value tool_name ++ "]")%string])
        else assistant_blocks rest texts tool_uses
  end.

Definition extract_content (msg : dict) : res (option string) :=
  ty <- getitem msg "type" ;;
  if eq_str ty "user" then
    match get msg "message" (JObj []) with
    | JObj c =>
        match get c "content" (JArr []) with
        | JStr text_parts => Ret (Some text_parts)
        | text_parts =>
            parts <- iterate text_parts ;;
            match user_texts parts [] with
            | [] => Ret None
            | texts => s <- join_values nl texts ;; Ret (Some s)
            end
        end
    | JStr c => Ret (Some c)
    | _ => Ret None
    end
  else
    ty' <- getitem msg "type" ;;
    if eq_str ty' "assistant" then
      c <- attr_get (get msg "message" (JObj [])) "content" (JArr []) ;;
      blocks <- iterate c ;;
      '(texts, tool_uses) <- assistant_blocks blocks [] [] ;;
      response <- join_values nl texts ;;
      let response :=
        match tool_uses with
        | [] => response
        | _ => (response ++ nl ++ join nl tool_uses)%string
        end in
      Ret (if str_truthy (strip response) then Some response else None)
    else Ret None.

(** *** Thread reconstruction *)

(** A reference to a record of the session: its position and its fields. *)
Definition ref : Type := (nat * dict)%type.

(** [msg_map = {msg['uuid']: msg for msg in messages}].  Only the keys of
    [msg_map] are ever read, so the map is its list of keys. *)
Fixpoint build_msg_map (messages : list dict) (msg_map : list json)
    : res (list json) :=
  match messages with
  | [] => Ret msg_map
  | msg :: rest =>
      u <- getitem msg "uuid" ;;
      if hashable u then build_msg_map rest (msg_map ++ [u])
      else Raise TypeError
  end.

(** [parent in msg_map] *)
Definition member (parent : json) (msg_map : list json) : res bool :=
  if hashable parent then Ret (existsb (key_eq parent) msg_map)
  else Raise TypeError.

(** The loop that collects the roots; [i] is the position of the head of
    [messages] in the session. *)
Fixpoint find_roots (msg_map : list json) (messages : list dict) (i : nat)
    (roots : list ref) : res (list ref) :=
  match messages with
  | [] => Ret roots
  | msg :: rest =>
      let parent := get msg "parentUuid" JNull in
      if negb (truthy parent) then
        find_roots msg_map rest (S i) (roots ++ [(i, msg)])
      else
        found <- member parent msg_map ;;
        if negb found then find_roots msg_map rest (S i) (roots ++ [(i, msg)])
        else find_roots msg_map rest (S i) roots
  end.

(** The search for the child of [current]; [current] is a record of the
    session, so its uuid, when present, is a key of [msg_map]. *)
Fixpoint next_msg (messages : list dict) (i : nat) (current : dict)
    : res (option ref) :=
  match messages with
  | [] => Ret None
  | msg :: rest =>
      u <- getitem current "uuid" ;;
      if key_eq (get msg "parentUuid" JNull) u then Ret (Some (i, msg))
      else next_msg rest (S i) current
  end.

(** State of the [while current:] loop. *)
Definition state : Type := (option ref * conversation)%type.

(** [while current:] goes on when [current] is a non-empty dict. *)
Definition loop_cond (st : state) : option ref :=
  match fst st with
  | Some (i, cur) => if truthy (JObj cur) then Some (i, cur) else None
  | None => None
  end.

Definition walk_body (messages : list dict) (current : ref)
    (conv : conversation) : res state :=
  c <- extract_content (snd current) ;;
  conv' <-
    match c with
    | Some s =>
        if str_truthy s then
          ty <- getitem (snd current) "type" ;;
          u <- getitem (snd current) "uuid" ;;
          Ret (conv ++ [{| turn_role := if eq_str ty "user" then user else assistant;
                           content := s;
                           timestamp := get (snd current) "timestamp" (JStr "");
                           uuid := u |}])
        else Ret conv
    | None => Ret conv
    end ;;
  next <- next_msg messages 0 (snd current) ;;
  Ret (next, conv').

Fixpoint walk (fuel : nat) (messages : list dict) (st : state)
    : res conversation :=
  match loop_cond st with
  | None => Ret (snd st)
  | Some current =>
      match fuel with
      | O => OutOfFuel
      | S fuel' =>
          st' <- walk_body messages current (snd st) ;;
          walk fuel' messages st'
      end
  end.

(** The records that the first [n] iterations of the loop visit. *)
Fixpoint visited (n : nat) (messages : list dict) (st : state) : list ref :=
  match n with
  | O => []
  | S n' =>
      match loop_cond st with
      | None => []
      | Some current =>
          current ::
          match walk_body messages current (snd st) with
          | Ret st' => visited n' messages st'
          | _ => []
          end
      end
  end.

(** [for root in roots] *)
Fixpoint build_conversations (fuel : nat) (cfg : config)
    (messages : list dict) (roots : list ref)
    (conversations : list conversation) : res (list conversation) :=
  match roots with
  | [] => Ret conversations
  | root :: rest =>
      conv <- walk fuel messages (Some root, []) ;;
      if (min_turns cfg <=? Z.of_nat (List.length conv))%Z
      then build_conversations fuel cfg messages rest (conversations ++ [conv])
      else build_conversations fuel cfg messages rest conversations
  end.

Definition sessions_t : Type := list (json * list dict).

(** [for session_id, messages in self.sessions.items()] *)
Fixpoint reconstruct_sessions (fuel : nat) (cfg : config)
    (sessions : sessions_t) (conversations : list conversation)
    : res (list conversation) :=
  match sessions with
  | [] => Ret conversations
  | (session_id, messages) :: rest =>
      msg_map <- build_msg_map messages [] ;;
      roots <- find_roots msg_map messages 0 [] ;;
      conversations' <-
        build_conversations fuel cfg messages roots conversations ;;
      reconstruct_sessions fuel cfg rest conversations'
  end.

Definition reconstruct_conversations (fuel : nat) (cfg : config)
    (sessions : sessions_t) : res (list conversation) :=
  reconstruct_sessions fuel cfg sessions [].

(** *** Record loading *)

(** [self.sessions[session_id].append(msg)] on the insertion-ordered
    [defaultdict(list)]. *)
Fixpoint sessions_append (sessions : sessions_t) (session_id : json)
    (msg : dict) : sessions_t :=
  match sessions with
  | [] => [(session_id, [msg])]
  | (k, l) :: rest =>
      if key_eq session_id k then (k, l ++ [msg]) :: rest
      else (k, l) :: sessions_append rest session_id msg
  end.

Fixpoint load_lines (lines : list string) (sessions : sessions_t)
    : res sessions_t :=
  match lines with
  | [] => Ret sessions
  | line :: rest =>
      if str_truthy (strip line) then
        match json_loads line with
        | None => Raise JSONDecodeError
        | Some v =>
            session_id <- attr_get v "sessionId" (JStr "unknown") ;;
            match v with
            | JObj msg =>
                if hashable session_id
                then load_lines rest (sessions_append sessions session_id msg)
                else Raise TypeError
            | _ => Raise AttributeError
            end
        end
      else load_lines rest sessions
  end.

Definition load_raw_data (lines : list string) : res sessions_t :=
  load_lines lines [].

End Extractor.

(** *** Quality filter *)

Definition keywords : list string :=
  ["let me"; "first"; "then"; "next"; "because"; "however";
   "consider"; "alternatively"; "analysis"; "approach"].

Definition is_assistant (msg : turn) : bool :=
  match turn_role msg with assistant => true | user => false end.

(** [sum(len(msg['content'].split()) for msg in conv)] *)
Definition total_tokens (conv : conversation) : Z :=
  fold_left (fun acc msg => (acc + Z.of_nat (List.length (split (content msg))))%Z)
            conv 0%Z.

Definition has_tools (conv : conversation) : bool :=
  existsb (fun msg => contains "[TOOL:" (content msg))
          (filter is_assistant conv).

Definition has_reasoning (conv : conversation) : bool :=
  existsb (fun msg =>
             (200 <? String.length (content msg))%nat
             && existsb (fun keyword => contains keyword (lower (content msg)))
                        keywords)
          (filter is_assistant conv).

(** [for conv in conversations] *)
Fixpoint filter_loop (cfg : config) (conversations filtered : list conversation)
    : list conversation :=
  match conversations with
  | [] => filtered
  | conv :: rest =>
      if (total_tokens conv <? min_tokens cfg)%Z then
        filter_loop cfg rest filtered
      else if has_tools conv || has_reasoning conv then
        filter_loop cfg rest (filtered ++ [conv])
      else filter_loop cfg rest filtered
  end.

Definition filter_quality (cfg : config) (conversations : list conversation)
    : list conversation :=
  filter_loop cfg conversations [].

(** *** Formatting and saving *)

Definition training_record : Type := list (role * string).

Definition format_for_training (conversations : list conversation)
    : list training_record :=
  map (fun conv => map (fun msg => (turn_role msg, content msg)) conv)
      conversations.

(** The output file: [None] until it is opened for writing, then the
    records written to it, one per line. *)
Definition output : Type := option (list training_record).

(** The file is written first; the report then divides by the size of the
    file, which is zero when no record was written. *)
Definition save_training_data (training_data : list training_record)
    : output * res unit :=
  (Some training_data,
   match training_data with
   | [] => Raise ZeroDivisionError
   | _ => Ret tt
   end).

Definition main (json_loads : string -> option json) (py_str : json -> string)
    (fuel : nat) (cfg : config) (lines : list string) : output * res unit :=
  match load_raw_data json_loads lines with
  | Ret sessions =>
      match reconstruct_conversations py_str fuel cfg sessions with
      | Ret conversations =>
          save_training_data
            (format_for_training (filter_quality cfg conversations))
      | Raise e => (None, Raise e)
      | OutOfFuel => (None, OutOfFuel)
      end
  | Raise e => (None, Raise e)
  | OutOfFuel => (None, OutOfFuel)
  end.

(** * Vocabulary of the specification and example data *)

(** [needle] occurs in [hay] as a run of consecutive characters. *)
Definition Substring (needle hay : string) : Prop :=
  exists pre post : string, hay = (pre ++ needle ++ post)%string.

(** [needle] occurs in [hay] up to the case of the letters. *)
Definition Substring_nocase (needle hay : string) : Prop :=
  exists pre mid post : string,
    hay = (pre ++ mid ++ post)%string /\ lower mid = lower needle.

(** A word: not empty and without whitespace. *)
Definition is_word (w : string) : Prop :=
  w <> EmptyString
  /\ forall c, In c (list_ascii_of_string w) -> isspace c = false.

(** The decision of [filter_quality] on one conversation. *)
Definition accepts (cfg : config) (conv : conversation) : bool :=
  negb (total_tokens conv <? min_tokens cfg)%Z
  && (has_tools conv || has_reasoning conv).

(** The words of the specification: the word count of a conversation, the
    two signals and the decision. *)
Definition word_count (s : string) : nat := List.length (split s).

Definition total_words (conv : conversation) : Z :=
  Z.of_nat (list_sum (map (fun t => word_count (content t)) conv)).

Definition Has_tools (conv : conversation) : Prop :=
  exists t, In t conv /\ turn_role t = assistant
            /\ Substring "[TOOL:" (content t).

Definition Has_reasoning (conv : conversation) : Prop :=
  exists t, In t conv /\ turn_role t = assistant
            /\ 200 < String.length (content t)
            /\ exists kw, In kw keywords /\ Substring_nocase kw (content t).

Definition Accepted (cfg : config) (conv : conversation) : Prop :=
  (min_tokens cfg <= total_words conv)%Z
  /\ (Has_tools conv \/ Has_reasoning conv).

(** [l1] is [l2] with some elements left out, the others in their order. *)
Inductive subseq {A : Type} : list A -> list A -> Prop :=
| subseq_nil : subseq [] []
| subseq_skip (x : A) (l1 l2 : list A) : subseq l1 l2 -> subseq l1 (x :: l2)
| subseq_keep (x : A) (l1 l2 : list A) :
    subseq l1 l2 -> subseq (x :: l1) (x :: l2).

(** The gate applied to a completed walk. *)
Definition kept (cfg : config) (conv : conversation) : bool :=
  (min_turns cfg <=? Z.of_nat (List.length conv))%Z.

(** [walks] are the conversations of the completed walks from [roots]. *)
Definition completed_walks (py_str : json -> string) (fuel : nat)
    (messages : list dict) (roots : list ref) (walks : list conversation)
    : Prop :=
  Forall2 (fun root conv => walk py_str fuel messages (Some root, []) = Ret conv)
          roots walks.

(** Every turn of a conversation has some content. *)
Definition nonempty_turns (conv : conversation) : Prop :=
  Forall (fun t => content t <> EmptyString) conv.

(** The shape of a record in the data model, every optional field being
    allowed to be absent. *)
Definition optional_string (d : dict) (k : string) : bool :=
  match lookup d k with
  | None | Some (JStr _) => true
  | Some _ => false
  end.

Definition text_ok (block : dict) : bool :=
  if eq_str (get block "type" JNull) "text" then optional_string block "text"
  else true.

Definition user_block_ok (part : json) : bool :=
  match part with JObj p => text_ok p | _ => true end.

Definition assistant_block_ok (block : json) : bool :=
  match block with JObj b => text_ok b | _ => false end.

Definition user_payload_ok (payload : option json) : bool :=
  match payload with
  | None | Some (JStr _) => true
  | Some (JObj c) =>
      match lookup c "content" with
      | None | Some (JStr _) => true
      | Some (JArr parts) => forallb user_block_ok parts
      | Some _ => false
      end
  | Some _ => false
  end.

Definition assistant_payload_ok (payload : option json) : bool :=
  match payload with
  | None => true
  | Some (JObj c) =>
      match lookup c "content" with
      | None => true
      | Some (JArr blocks) => forallb assistant_block_ok blocks
      | Some _ => false
      end
  | Some _ => false
  end.

Definition well_shaped (msg : dict) : bool :=
  match lookup msg "type" with
  | None => false
  | Some ty =>
      if eq_str ty "user" then user_payload_ok (lookup msg "message")
      else if eq_str ty "assistant"
           then assistant_payload_ok (lookup msg "message")
           else true
  end.

(** Removal of a field, at the top of a record or in its [i]-th block. *)
Fixpoint remove_key (k : string) (d : dict) : dict :=
  match d with
  | [] => []
  | (k', v) :: d' =>
      if String.eqb k' k then remove_key k d' else (k', v) :: remove_key k d'
  end.

Definition update (d : dict) (k : string) (f : json -> json) : dict :=
  map (fun kv => if String.eqb (fst kv) k then (fst kv, f (snd kv)) else kv) d.

Fixpoint on_block (i : nat) (f : dict -> dict) (blocks : list json)
    : list json :=
  match blocks, i with
  | [], _ => []
  | JObj b :: rest, O => JObj (f b) :: rest
  | block :: rest, O => block :: rest
  | block :: rest, S i' => block :: on_block i' f rest
  end.

Definition drop_block_field (k : string) (i : nat) (msg : dict) : dict :=
  update msg "message"
    (fun m =>
       match m with
       | JObj c =>
           JObj (update c "content"
                   (fun v =>
                      match v with
                      | JArr blocks => JArr (on_block i (remove_key k) blocks)
                      | _ => v
                      end))
       | _ => m
       end).

Definition all_strings (l : list json) : bool :=
  forallb (fun v => match v with JStr _ => true | _ => false end) l.

(** The line decodes to a structured record. *)
Definition decodes_record (json_loads : string -> option json)
    (line : string) : Prop :=
  exists msg : dict, json_loads line = Some (JObj msg).

(** [msg.get('parentUuid')] *)
Definition parent_of (msg : dict) : json := get msg "parentUuid" JNull.

(** The first record from position [i] on whose parent is [u]. *)
Fixpoint first_child (u : json) (messages : list dict) (i : nat)
    : option ref :=
  match messages with
  | [] => None
  | msg :: rest =>
      if key_eq (parent_of msg) u then Some (i, msg)
      else first_child u rest (S i)
  end.

(** A reference that designates a record of the session. *)
Definition valid_ref (messages : list dict) (r : ref) : Prop :=
  nth_error messages (fst r) = Some (snd r).

(** Each record of the list is the one the child search finds from the
    record before it. *)
Inductive chain (messages : list dict) : list ref -> Prop :=
| chain_nil : chain messages []
| chain_one (x : ref) : chain messages [x]
| chain_cons (x y : ref) (l : list ref) :
    next_msg messages 0 (snd x) = Ret (Some y) ->
    chain messages (y :: l) -> chain messages (x :: y :: l).

(** [parent] equals the uuid of some record of the session. *)
Definition resolves (parent : json) (messages : list dict) : Prop :=
  exists m u, In m messages /\ lookup m "uuid" = Some u
              /\ key_eq parent u = true.

(** The test of the loop that collects the roots. *)
Definition is_root (msg_map : list json) (msg : dict) : bool :=
  negb (truthy (parent_of msg))
  || negb (existsb (key_eq (parent_of msg)) msg_map).

(** No two records of the session have equal uuids. *)
Definition distinct_uuids (messages : list dict) : Prop :=
  forall i j mi mj ui uj,
    nth_error messages i = Some mi -> nth_error messages j = Some mj ->
    lookup mi "uuid" = Some ui -> lookup mj "uuid" = Some uj ->
    key_eq ui uj = true -> i = j.

(** A [parentUuid] that equals the uuid of a record is truthy. *)
Definition no_falsy_link (messages : list dict) : Prop :=
  forall p, In p messages -> resolves (parent_of p) messages ->
            truthy (parent_of p) = true.

(** A record whose uuid and parentUuid are both the empty string. *)
Definition self_parent : dict :=
  [("uuid", JStr ""); ("parentUuid", JStr ""); ("type", JStr "user");
   ("message", JObj [("content", JStr "hi")])].

(** An instance of [str] for sessions in which every tool name is a
    string, where it is never called. *)
Definition example_str (_ : json) : string := EmptyString.

Definition text_block (s : string) : json :=
  JObj [("type", JStr "text"); ("text", JStr s)].

Definition tool_block (name : string) : json :=
  JObj [("type", JStr "tool_use"); ("name", JStr name); ("input", JObj [])].

Definition record (ty u : string) (parent : json) (blocks : list json) : dict :=
  [("uuid", JStr u); ("parentUuid", parent); ("sessionId", JStr "s1");
   ("type", JStr ty); ("timestamp", JStr "t");
   ("message", JObj [("content", JArr blocks)])].

(** 250 characters, 50 words. *)
Definition filler : string := String.concat "" (repeat "word " 50).

(** The end-to-end scenario of the specification. *)
Definition R1 : dict := record "user" "r1" JNull [text_block "Please fix the bug"].
Definition R2 : dict :=
  record "assistant" "r2" (JStr "r1")
         [text_block ("Let me look at the code. " ++ filler)].
Definition R3 : dict := record "assistant" "r3" (JStr "r2") [tool_block "Edit"].
Definition R4 : dict := record "user" "r4" (JStr "r3") [text_block "Thanks"].

Definition scenario : list dict := [R1; R2; R3; R4].

Definition scenario_turn (r : role) (c u : string) : turn :=
  {| turn_role := r; content := c; timestamp := JStr "t"; uuid := JStr u |}.

Definition scenario_conversation : conversation :=
  [scenario_turn user "Please fix the bug" "r1";
   scenario_turn assistant ("Let me look at the code. " ++ filler) "r2";
   scenario_turn assistant (nl ++ "[TOOL: Edit]") "r3";
   scenario_turn user "Thanks" "r4"].

(** A decoder for input files whose lines are the names of the records of
    the scenario; any other line does not decode. *)
Definition example_loads (line : string) : option json :=
  if String.eqb line "R1" then Some (JObj R1)
  else if String.eqb line "R2" then Some (JObj R2)
  else if String.eqb line "R3" then Some (JObj R3)
  else if String.eqb line "R4" then Some (JObj R4)
  else None.

(** An assistant record whose only block is a [tool_use] named ["Read"]. *)
Definition read_only : dict :=
  [("type", JStr "assistant");
   ("message", JObj [("content",
      JArr [JObj [("type", JStr "tool_use"); ("name", JStr "Read")]])])].

(** A parent and its children in input order. *)
Definition parent_a : dict := record "user" "a" JNull [text_block "question"].
Definition child (u : string) : dict :=
  record "assistant" u (JStr "a") [text_block u].
Definition two_children : list dict := [parent_a; child "b"; child "c"].
Definition siblings : list dict :=
  [parent_a; child "d"; child "b"; child "c"].

(** A record of a type that has no content, between two records. *)
Definition gap : dict := record "system" "g" (JStr "a") [].
Definition after_gap : dict :=
  record "assistant" "h" (JStr "g") [text_block "answer"].

(** A record whose uuid is empty, and a record whose parentUuid is empty. *)
Definition empty_uuid : dict := record "user" "" JNull [text_block "x"].
Definition empty_parent : dict := record "user" "y" (JStr "") [text_block "y"].
Definition empty_link : list dict := [empty_uuid; empty_parent].

(** A record with nothing but its type and blocks without text and name. *)
Definition bare : dict :=
  [("type", JStr "assistant");
   ("message", JObj [("content",
      JArr [JObj [("type", JStr "text")]; JObj [("type", JStr "tool_use")]])])].

(** ** Vocabulary of the further properties *)

(** [msg.get('sessionId', 'unknown')] *)
Definition session_of (msg : dict) : json :=
  get msg "sessionId" (JStr "unknown").

(** The records of the non-blank lines that decode to an object, in the
    order of the lines. *)
Definition records_of (json_loads : string -> option json)
    (lines : list string) : list dict :=
  flat_map (fun line =>
              if str_truthy (strip line) then
                match json_loads line with
                | Some (JObj msg) => [msg]
                | _ => []
                end
              else []) lines.

(** The line is blank, or decodes to an object with a hashable session. *)
Definition line_ok (json_loads : string -> option json) (line : string)
    : bool :=
  if str_truthy (strip line) then
    match json_loads line with
    | Some (JObj msg) => hashable (session_of msg)
    | _ => false
    end
  else true.

(** The records of [records] whose session is [k], in their order. *)
Definition bucket (k : json) (records : list dict) : list dict :=
  filter (fun msg => key_eq (session_of msg) k) records.

(** [sessions] groups [records] by session: every bucket holds the records
    of its key in their order and is not empty, no two keys are equal, and
    every record has its key. *)
Definition grouped (records : list dict) (sessions : sessions_t) : Prop :=
  (forall k l, In (k, l) sessions ->
               l = bucket k records /\ l <> [] /\ hashable k = true)
  /\ ForallOrdPairs (fun a b => key_eq (fst a) (fst b) = false) sessions
  /\ (forall msg, In msg records ->
                  exists k l, In (k, l) sessions
                              /\ key_eq (session_of msg) k = true).


(** [self.sessions[session_id].append(msg)] for each record in turn. *)
Definition append_all (records : list dict) (sessions : sessions_t)
    : sessions_t :=
  fold_left (fun acc msg => sessions_append acc (session_of msg) msg)
            records sessions.



(** The turn that a visited record adds to the conversation, if any. *)
Definition turn_of (py_str : json -> string) (cur : dict) : option turn :=
  match extract_content py_str cur with
  | Ret (Some s) =>
      if str_truthy s then
        match lookup cur "type", lookup cur "uuid" with
        | Some ty, Some u =>
            Some {| turn_role := if eq_str ty "user" then user else assistant;
                    content := s;
                    timestamp := get cur "timestamp" (JStr "");
                    uuid := u |}
        | _, _ => None
        end
      else None
  | _ => None
  end.

(** The turns of a list of visited records, in their order. *)
Definition turns_of (py_str : json -> string) (l : list ref) : list turn :=
  flat_map (fun r => match turn_of py_str (snd r) with
                     | Some t => [t]
                     | None => []
                     end) l.

(** The records of a session with their positions. *)
Definition indexed (messages : list dict) : list ref :=
  combine (seq 0 (List.length messages)) messages.

(** A record that [reconstruct_conversations] can index and classify. *)
Definition indexable (msg : dict) : Prop :=
  (exists u, lookup msg "uuid" = Some u /\ hashable u = true)
  /\ (truthy (parent_of msg) = true -> hashable (parent_of msg) = true).

(** Every uuid of the session is truthy. *)
Definition truthy_uuids (messages : list dict) : Prop :=
  forall msg u, In msg messages -> lookup msg "uuid" = Some u ->
                truthy u = true.

(** The number of records of all the sessions. *)
Definition record_count (sessions : sessions_t) : nat :=
  list_sum (map (fun s => List.length (snd s)) sessions).


Definition is_obj (v : json) : bool :=
  match v with JObj _ => true | _ => false end.

(** The texts of the blocks of kind [text], in their order. *)
Definition block_texts (blocks : list json) : list json :=
  flat_map (fun b => match b with
                     | JObj o => if eq_str (get o "type" JNull) "text"
                                 then [get o "text" (JStr "")] else []
                     | _ => []
                     end) blocks.

(** The markers of the blocks of kind [tool_use], in their order. *)
Definition block_markers (py_str : json -> string) (blocks : list json)
    : list string :=
  flat_map (fun b => match b with
                     | JObj o =>
                         if eq_str (get o "type" JNull) "tool_use"
                         then [("[TOOL: "
                                ++ format_value py_str (get o "name" (JStr ""))
                                ++ "]")%string]
                         else []
                     | _ => []
                     end) blocks.

(** The content of an assistant message from its texts and its markers. *)
Definition response_of (texts markers : list string) : option string :=
  let response :=
    match markers with
    | [] => join nl texts
    | _ => (join nl texts ++ nl ++ join nl markers)%string
    end in
  if str_truthy (strip response) then Some response else None.

(** An assistant record with a text block and two tool uses. *)
Definition edit_twice : dict :=
  record "assistant" "e" (JStr "a")
         [text_block "On it."; tool_block "Read"; tool_block "Edit"].

(** A user record with two text blocks around a block of another kind. *)
Definition two_texts : dict :=
  record "user" "u" JNull
         [text_block "one"; JObj [("type", JStr "image")]; text_block "two"].

(** A conversation without any assistant turn. *)
Definition only_user : conversation :=
  [scenario_turn user ("Let me explain. " ++ filler) "r1"].

(** * Properties *)
(** ** The outcome monad *)

Lemma bind_Ret_inv {A B : Type} (c : res A) (k : A -> res B) (b : B) :
  bind c k = Ret b -> exists a, c = Ret a /\ k a = Ret b.
Proof.
  destruct c as [a | e | ]; simpl; intros H; try discriminate.
  exists a; split; [reflexivity | exact H].
Qed.

Lemma bind_OutOfFuel_inv {A B : Type} (c : res A) (k : A -> res B) :
  bind c k = OutOfFuel ->
  c = OutOfFuel \/ exists a, c = Ret a /\ k a = OutOfFuel.
Proof.
  destruct c as [a | e | ]; simpl; intros H; try discriminate.
  - right; exists a; split; [reflexivity | exact H].
  - left; reflexivity.
Qed.

(** ** Strings *)

Lemma prefix_app (a b : string) :
  String.prefix a b = true <-> exists post, b = (a ++ post)%string.
Proof.
  revert b; induction a as [| c a IH]; intros b.
  - destruct b; simpl; split; intros _; eauto.
  - destruct b as [| d b]; simpl.
    + split; [discriminate | intros [post H]; discriminate].
    + destruct (ascii_dec c d) as [-> | Hne].
      * rewrite IH. split; intros [post H]; exists post.
        -- now subst.
        -- now injection H.
      * split; [discriminate | intros [post H]; congruence].
Qed.

Lemma contains_Substring (needle hay : string) :
  contains needle hay = true <-> Substring needle hay.
Proof.
  unfold Substring.
  induction hay as [| c hay IH].
  - cbn [contains]. rewrite orb_false_r, prefix_app. split.
    + intros [post H]; exists EmptyString, post; exact H.
    + intros [[| d pre] [post H]]; [exists post; exact H | discriminate].
  - cbn [contains]. rewrite orb_true_iff, prefix_app, IH. split.
    + intros [[post H] | [pre [post H]]].
      * exists EmptyString, post; exact H.
      * exists (String c pre), post; simpl; now rewrite H.
    + intros [[| d pre] [post H]].
      * left; exists post; exact H.
      * right; exists pre, post. simpl in H. now injection H.
Qed.

Lemma lower_app (a b : string) :
  lower (a ++ b) = (lower a ++ lower b)%string.
Proof.
  induction a as [| c a IH]; simpl; [reflexivity | now rewrite IH].
Qed.

Lemma lower_app_inv (s a b : string) :
  lower s = (a ++ b)%string ->
  exists a' b', s = (a' ++ b')%string /\ lower a' = a /\ lower b' = b.
Proof.
  revert s; induction a as [| c a IH]; intros s H.
  - exists EmptyString, s; auto.
  - destruct s as [| d s]; simpl in H; [discriminate |].
    injection H as Hc Hs.
    destruct (IH s Hs) as (a' & b' & -> & Ha & Hb).
    exists (String d a'), b'; simpl; rewrite Ha, Hc; auto.
Qed.

Lemma keywords_lower (kw : string) : In kw keywords -> lower kw = kw.
Proof.
  unfold keywords; simpl; intros H.
  repeat (destruct H as [<- | H]; [reflexivity |]); contradiction.
Qed.

Lemma contains_lower_nocase (kw hay : string) :
  lower kw = kw ->
  contains kw (lower hay) = true <-> Substring_nocase kw hay.
Proof.
  intros Hkw. rewrite contains_Substring.
  unfold Substring, Substring_nocase. rewrite Hkw. split.
  - intros (pre & post & H).
    apply lower_app_inv in H as (pre' & rest & -> & Hpre & Hrest).
    apply lower_app_inv in Hrest as (mid & post' & -> & Hmid & Hpost).
    exists pre', mid, post'; auto.
  - intros (pre & mid & post & -> & Hmid).
    exists (lower pre), (lower post).
    now rewrite !lower_app, Hmid.
Qed.

(** ** Quality filter *)

Lemma filter_loop_filter (cfg : config) (convs filtered : list conversation) :
  filter_loop cfg convs filtered = filtered ++ filter (accepts cfg) convs.
Proof.
  revert filtered; induction convs as [| conv convs IH]; intros filtered; simpl.
  - now rewrite app_nil_r.
  - unfold accepts.
    destruct (total_tokens conv <? min_tokens cfg)%Z; simpl.
    + apply IH.
    + destruct (has_tools conv || has_reasoning conv).
      * rewrite IH, <- app_assoc; reflexivity.
      * apply IH.
Qed.

Lemma filter_quality_filter (cfg : config) (convs : list conversation) :
  filter_quality cfg convs = filter (accepts cfg) convs.
Proof. unfold filter_quality. now rewrite filter_loop_filter. Qed.

Lemma total_tokens_from (conv : conversation) (acc : Z) :
  fold_left (fun acc msg =>
               (acc + Z.of_nat (List.length (split (content msg))))%Z) conv acc
  = (acc + total_words conv)%Z.
Proof.
  unfold total_words.
  revert acc; induction conv as [| t conv IH]; intros acc; simpl.
  - lia.
  - rewrite IH. unfold word_count. lia.
Qed.

Lemma total_tokens_words (conv : conversation) :
  total_tokens conv = total_words conv.
Proof. unfold total_tokens. now rewrite total_tokens_from. Qed.

Lemma has_tools_spec (conv : conversation) :
  has_tools conv = true <-> Has_tools conv.
Proof.
  unfold has_tools, Has_tools. rewrite existsb_exists. split.
  - intros (t & Hin & Hc). apply filter_In in Hin as [Hin Hr].
    exists t. rewrite <- contains_Substring. repeat split; auto.
    unfold is_assistant in Hr. now destruct (turn_role t).
  - intros (t & Hin & Hr & Hc). exists t. split.
    + apply filter_In. split; [exact Hin |]. unfold is_assistant. now rewrite Hr.
    + now apply contains_Substring.
Qed.

Lemma has_reasoning_spec (conv : conversation) :
  has_reasoning conv = true <-> Has_reasoning conv.
Proof.
  unfold has_reasoning, Has_reasoning. rewrite existsb_exists. split.
  - intros (t & Hin & Hc). apply filter_In in Hin as [Hin Hr].
    apply andb_true_iff in Hc as [Hlen Hkw].
    apply Nat.ltb_lt in Hlen.
    apply existsb_exists in Hkw as (kw & Hkw & Hsub).
    exists t. repeat split; auto.
    + unfold is_assistant in Hr. now destruct (turn_role t).
    + exists kw. split; [exact Hkw |].
      apply contains_lower_nocase; auto using keywords_lower.
  - intros (t & Hin & Hr & Hlen & kw & Hkw & Hsub). exists t. split.
    + apply filter_In. split; [exact Hin |]. unfold is_assistant. now rewrite Hr.
    + apply andb_true_iff. split; [now apply Nat.ltb_lt |].
      apply existsb_exists. exists kw. split; [exact Hkw |].
      apply contains_lower_nocase; auto using keywords_lower.
Qed.

Lemma accepts_Accepted (cfg : config) (conv : conversation) :
  accepts cfg conv = true <-> Accepted cfg conv.
Proof.
  unfold accepts, Accepted.
  rewrite andb_true_iff, negb_true_iff, Z.ltb_ge, orb_true_iff.
  now rewrite total_tokens_words, has_tools_spec, has_reasoning_spec.
Qed.

(** C1: [filter_quality] keeps a conversation exactly when its total
    whitespace-split word count is at least [min_tokens] and some assistant
    turn either contains ["[TOOL:"] or is longer than 200 characters and
    contains one of the ten keywords up to case; with the default
    configuration the threshold is 50. *)
Theorem filter_quality_accepts_iff (cfg : config)
    (convs : list conversation) (conv : conversation) :
  (In conv (filter_quality cfg convs) <-> In conv convs /\ Accepted cfg conv)
  /\ (filter_quality cfg [conv] = [conv] <-> Accepted cfg conv)
  /\ (filter_quality cfg [conv] = [] <-> ~ Accepted cfg conv)
  /\ min_tokens default_config = 50%Z.
Proof.
  rewrite !filter_quality_filter. split; [| split; [| split]].
  - rewrite filter_In, accepts_Accepted. reflexivity.
  - rewrite <- accepts_Accepted. simpl.
    destruct (accepts cfg conv); split; congruence.
  - rewrite <- accepts_Accepted. simpl.
    destruct (accepts cfg conv); split; congruence.
  - reflexivity.
Qed.

Lemma filter_subseq {A : Type} (f : A -> bool) (l : list A) :
  subseq (filter f l) l.
Proof.
  induction l as [| x l IH]; simpl.
  - constructor.
  - destruct (f x); now constructor.
Qed.

Lemma filter_twice {A : Type} (f : A -> bool) (l : list A) :
  filter f (filter f l) = filter f l.
Proof.
  induction l as [| x l IH]; simpl; [reflexivity |].
  destruct (f x) eqn:E; simpl; [rewrite E, IH |]; auto.
Qed.

(** C8: [filter_quality] is idempotent, its output is a subsequence of its
    input (accepted conversations are passed through unchanged and in
    order), and the decision on a conversation does not depend on the
    other conversations of the list. *)
Theorem filter_quality_idempotent (cfg : config) (convs : list conversation) :
  filter_quality cfg (filter_quality cfg convs) = filter_quality cfg convs
  /\ subseq (filter_quality cfg convs) convs
  /\ (forall conv, In conv convs ->
        (In conv (filter_quality cfg convs)
         <-> filter_quality cfg [conv] = [conv]))
  /\ (forall conv, In conv (filter_quality cfg convs) ->
        filter_quality cfg [conv] = [conv]).
Proof.
  rewrite !filter_quality_filter. split; [| split; [| split]].
  - apply filter_twice.
  - apply filter_subseq.
  - intros conv Hin. rewrite filter_quality_filter, filter_In. simpl.
    destruct (accepts cfg conv); split; try tauto; try congruence.
    intros [_ H]; discriminate.
  - intros conv Hin. rewrite filter_quality_filter. simpl.
    apply filter_In in Hin as [_ ->]. reflexivity.
Qed.

(** ** Thread reconstruction *)

Section Reconstruction.

Variable py_str : json -> string.

Lemma build_conversations_filter (fuel : nat) (cfg : config)
    (messages : list dict) (roots : list ref)
    (acc out : list conversation) :
  build_conversations py_str fuel cfg messages roots acc = Ret out
  <-> exists walks, completed_walks py_str fuel messages roots walks
                    /\ out = acc ++ filter (kept cfg) walks.
Proof.
  unfold completed_walks.
  revert acc out; induction roots as [| root roots IH]; intros acc out; simpl.
  - split.
    + intros H; injection H as <-. exists []. split; [constructor |].
      simpl; now rewrite app_nil_r.
    + intros (walks & HF & ->). inversion HF; subst. simpl.
      now rewrite app_nil_r.
  - split.
    + intros H. apply bind_Ret_inv in H as (conv & Hw & H).
      fold (kept cfg conv) in H.
      destruct (kept cfg conv) eqn:E; apply IH in H as (walks & HF & ->);
        exists (conv :: walks); (split; [now constructor |]); simpl; rewrite E.
      * now rewrite <- app_assoc.
      * reflexivity.
    + intros (walks & HF & ->). inversion HF as [| ? conv ? walks' Hw HF' ]; subst.
      rewrite Hw. simpl. fold (kept cfg conv).
      destruct (kept cfg conv) eqn:E; apply IH; exists walks';
        (split; [exact HF' |]).
      * now rewrite <- app_assoc.
      * reflexivity.
Qed.

(** C5: the conversations that [reconstruct_conversations] keeps for a
    session are the completed walks with at least [min_turns] turns, in the
    order of their roots; a walk of [min_turns - 1] turns is dropped and a
    walk of [min_turns] turns is kept; [min_turns] is 3 by default. *)
Theorem min_turns_gate (fuel : nat) (cfg : config) (messages : list dict)
    (root : ref) (roots : list ref) (conv : conversation)
    (walks acc : list conversation) :
  walk py_str fuel messages (Some root, []) = Ret conv ->
  completed_walks py_str fuel messages roots walks ->
  build_conversations py_str fuel cfg messages (root :: roots) acc
  = Ret (acc ++ filter (kept cfg) (conv :: walks))
  /\ (In conv (filter (kept cfg) (conv :: walks))
      <-> (min_turns cfg <= Z.of_nat (List.length conv))%Z)
  /\ (Z.of_nat (List.length conv) = (min_turns cfg - 1)%Z ->
      build_conversations py_str fuel cfg messages [root] acc = Ret acc)
  /\ (Z.of_nat (List.length conv) = min_turns cfg ->
      build_conversations py_str fuel cfg messages [root] acc
      = Ret (acc ++ [conv]))
  /\ min_turns default_config = 3%Z.
Proof.
  intros Hw HF. split; [| split; [| split; [| split]]].
  - apply build_conversations_filter. exists (conv :: walks).
    split; [now constructor | reflexivity].
  - rewrite filter_In. unfold kept. rewrite Z.leb_le. simpl. tauto.
  - intros Hlen. simpl. rewrite Hw. simpl.
    replace (min_turns cfg <=? Z.of_nat (List.length conv))%Z with false;
      [reflexivity |].
    symmetry. apply Z.leb_gt. lia.
  - intros Hlen. simpl. rewrite Hw. simpl.
    replace (min_turns cfg <=? Z.of_nat (List.length conv))%Z with true;
      [reflexivity |].
    symmetry. apply Z.leb_le. lia.
  - reflexivity.
Qed.

Lemma walk_body_inv (messages : list dict) (current : ref)
    (conv : conversation) (st' : state) :
  walk_body py_str messages current conv = Ret st' ->
  next_msg messages 0 (snd current) = Ret (fst st')
  /\ exists c, extract_content py_str (snd current) = Ret c
     /\ ((snd st' = conv /\ (c = None \/ c = Some EmptyString))
         \/ (exists s t, c = Some s /\ s <> EmptyString /\ content t = s
                         /\ lookup (snd current) "uuid" = Some (uuid t)
                         /\ snd st' = conv ++ [t])).
Proof.
  unfold walk_body. intros H.
  apply bind_Ret_inv in H as (c & Hc & H).
  apply bind_Ret_inv in H as (conv' & Hconv & H).
  apply bind_Ret_inv in H as (next & Hnext & H).
  injection H as <-. simpl. split; [exact Hnext |].
  exists c. split; [exact Hc |].
  destruct c as [s |].
  - destruct s as [| ch s]; simpl in Hconv.
    + injection Hconv as <-. left; auto.
    + apply bind_Ret_inv in Hconv as (ty & Hty & Hconv).
      apply bind_Ret_inv in Hconv as (u & Hu & Hconv).
      injection Hconv as <-. right.
      eexists; eexists. repeat split; try reflexivity; try discriminate.
      simpl. unfold getitem in Hu.
      destruct (lookup (snd current) "uuid"); now inversion Hu.
  - injection Hconv as <-. left; auto.
Qed.

Lemma walk_body_nonempty (messages : list dict) (current : ref)
    (conv : conversation) (st' : state) :
  walk_body py_str messages current conv = Ret st' ->
  nonempty_turns conv -> nonempty_turns (snd st').
Proof.
  intros H Hconv.
  apply walk_body_inv in H as (_ & c & _ & [[-> _] | (s & t & _ & Hs & Ht & _ & ->)]).
  - exact Hconv.
  - apply Forall_app. split; [exact Hconv |].
    constructor; [congruence | constructor].
Qed.

Lemma walk_nonempty (fuel : nat) (messages : list dict) (st : state)
    (conv : conversation) :
  walk py_str fuel messages st = Ret conv ->
  nonempty_turns (snd st) -> nonempty_turns conv.
Proof.
  revert st; induction fuel as [| fuel IH]; intros st H Hst; simpl in H.
  - destruct (loop_cond st); [discriminate | now injection H as <-].
  - destruct (loop_cond st) as [current |]; [| now injection H as <-].
    apply bind_Ret_inv in H as (st' & Hbody & H).
    apply (IH st' H). eapply walk_body_nonempty; eauto.
Qed.

Lemma build_conversations_nonempty (fuel : nat) (cfg : config)
    (messages : list dict) (roots : list ref) (acc out : list conversation) :
  build_conversations py_str fuel cfg messages roots acc = Ret out ->
  Forall nonempty_turns acc -> Forall nonempty_turns out.
Proof.
  intros H Hacc.
  apply build_conversations_filter in H as (walks & HF & ->).
  apply Forall_app. split; [exact Hacc |].
  apply Forall_forall. intros conv Hin. apply filter_In in Hin as [Hin _].
  unfold completed_walks in HF.
  revert Hin. induction HF as [| root c roots' walks' Hw HF IH]; simpl.
  - contradiction.
  - intros [<- | Hin]; [| now apply IH].
    apply (walk_nonempty _ _ _ _ Hw). constructor.
Qed.

Lemma reconstruct_sessions_nonempty (fuel : nat) (cfg : config)
    (sessions : sessions_t) (acc out : list conversation) :
  reconstruct_sessions py_str fuel cfg sessions acc = Ret out ->
  Forall nonempty_turns acc -> Forall nonempty_turns out.
Proof.
  revert acc; induction sessions as [| [sid messages] sessions IH];
    intros acc H Hacc; simpl in H.
  - now injection H as <-.
  - apply bind_Ret_inv in H as (msg_map & _ & H).
    apply bind_Ret_inv in H as (roots & _ & H).
    apply bind_Ret_inv in H as (acc' & Hb & H).
    apply (IH acc' H). eapply build_conversations_nonempty; eauto.
Qed.

(** C6: every turn of every reconstructed conversation has non-empty
    content; a visited record without content adds no turn, and the loop
    goes on with the child of that record. *)
Theorem turns_have_content (fuel : nat) (cfg : config) (sessions : sessions_t)
    (convs : list conversation) :
  reconstruct_conversations py_str fuel cfg sessions = Ret convs ->
  (forall conv t, In conv convs -> In t conv -> content t <> EmptyString)
  /\ (forall messages current conv next,
        extract_content py_str (snd current) = Ret None
        \/ extract_content py_str (snd current) = Ret (Some EmptyString) ->
        next_msg messages 0 (snd current) = Ret next ->
        walk_body py_str messages current conv = Ret (next, conv)
        /\ (loop_cond (Some current, conv) = Some current ->
            forall n, walk py_str (S n) messages (Some current, conv)
                      = walk py_str n messages (next, conv))).
Proof.
  intros H. split.
  - intros conv t Hconv Ht.
    apply reconstruct_sessions_nonempty in H; [| constructor].
    rewrite Forall_forall in H. specialize (H conv Hconv).
    unfold nonempty_turns in H. rewrite Forall_forall in H. now apply H.
  - intros messages current conv next Hc Hn.
    assert (Hb : walk_body py_str messages current conv = Ret (next, conv)).
    { unfold walk_body. destruct Hc as [-> | ->]; simpl; now rewrite Hn. }
    split; [exact Hb |].
    intros Hl n. simpl walk at 1. rewrite Hl. simpl snd. rewrite Hb. reflexivity.
Qed.

End Reconstruction.

(** ** Content extraction *)

Section Extraction.

Variable py_str : json -> string.

(** C2 (amended): an assistant record whose message content is a single
    [tool_use] block named ["Read"] extracts to a newline followed by
    ["[TOOL: Read]"]: the marker is appended to the empty joined text after
    a newline. *)
Theorem tool_only_extract (msg message block : dict) :
  lookup msg "type" = Some (JStr "assistant") ->
  lookup msg "message" = Some (JObj message) ->
  lookup message "content" = Some (JArr [JObj block]) ->
  lookup block "type" = Some (JStr "tool_use") ->
  lookup block "name" = Some (JStr "Read") ->
  extract_content py_str msg = Ret (Some (nl ++ "[TOOL: Read]")%string).
Proof.
  intros Hty Hmsg Hc Hbt Hbn.
  unfold extract_content, getitem, get. rewrite Hty, Hmsg. simpl.
  unfold get. rewrite Hc. simpl.
  unfold get. rewrite Hbt, Hbn. simpl. reflexivity.
Qed.

Lemma strings_of_total (l : list json) :
  all_strings l = true -> exists r, strings_of l = Ret r.
Proof.
  induction l as [| v l IH]; simpl; intros H.
  - eauto.
  - apply andb_true_iff in H as [Hv Hl].
    destruct v; try discriminate.
    destruct (IH Hl) as [r ->]. simpl. eauto.
Qed.

Lemma all_strings_app (l1 l2 : list json) :
  all_strings (l1 ++ l2) = all_strings l1 && all_strings l2.
Proof. unfold all_strings. apply forallb_app. Qed.

Lemma text_ok_string (b : dict) :
  text_ok b = true -> eq_str (get b "type" JNull) "text" = true ->
  all_strings [get b "text" (JStr "")] = true.
Proof.
  unfold text_ok, optional_string, get. intros H E. rewrite E in H.
  destruct (lookup b "text") as [[] |]; simpl; congruence.
Qed.

Lemma user_texts_strings (parts texts : list json) :
  forallb user_block_ok parts = true -> all_strings texts = true ->
  all_strings (user_texts parts texts) = true.
Proof.
  revert texts; induction parts as [| part parts IH]; intros texts Hp Ht; simpl.
  - exact Ht.
  - simpl in Hp. apply andb_true_iff in Hp as [Hpart Hp].
    destruct part; auto.
    destruct (eq_str (get o "type" JNull) "text") eqn:E; auto.
    apply IH; auto. rewrite all_strings_app, Ht.
    now rewrite (text_ok_string o Hpart E).
Qed.

Lemma assistant_blocks_total (blocks texts : list json)
    (tool_uses : list string) :
  forallb assistant_block_ok blocks = true -> all_strings texts = true ->
  exists texts' tool_uses',
    assistant_blocks py_str blocks texts tool_uses = Ret (texts', tool_uses')
    /\ all_strings texts' = true.
Proof.
  revert texts tool_uses; induction blocks as [| block blocks IH];
    intros texts tool_uses Hb Ht; simpl.
  - eauto.
  - simpl in Hb. apply andb_true_iff in Hb as [Hblock Hb].
    destruct block; try discriminate. simpl in *.
    destruct (eq_str (get o "type" JNull) "text") eqn:E.
    + apply IH; auto. rewrite all_strings_app, Ht.
      now rewrite (text_ok_string o Hblock E).
    + destruct (eq_str (get o "type" JNull) "tool_use"); apply IH; auto.
Qed.

Lemma well_shaped_extract (msg : dict) :
  well_shaped msg = true -> exists r, extract_content py_str msg = Ret r.
Proof.
  unfold well_shaped, extract_content, getitem, get.
  destruct (lookup msg "type") as [ty |]; [| discriminate]. simpl.
  destruct (eq_str ty "user").
  - unfold user_payload_ok.
    destruct (lookup msg "message") as [[| | | s | | c] |]; try discriminate;
      simpl; eauto.
    destruct (lookup c "content") as [[| | | s | parts |] |]; try discriminate;
      simpl; eauto.
    intros Hp.
    pose proof (user_texts_strings parts [] Hp eq_refl) as Hs.
    destruct (user_texts parts []) as [| t texts]; eauto.
    unfold join_values.
    destruct (strings_of_total _ Hs) as [r ->]. simpl. eauto.
  - destruct (eq_str ty "assistant"); [| eauto].
    unfold assistant_payload_ok.
    destruct (lookup msg "message") as [[| | | | | c] |]; try discriminate;
      simpl; eauto.
    unfold get.
    destruct (lookup c "content") as [[| | | | blocks |] |]; try discriminate;
      simpl; eauto.
    intros Hb.
    destruct (assistant_blocks_total blocks [] [] Hb eq_refl)
      as (texts & tool_uses & -> & Hs).
    simpl. unfold join_values.
    destruct (strings_of_total _ Hs) as [r ->]. simpl. eauto.
Qed.

Lemma lookup_remove_key_ne (k k' : string) (d : dict) :
  k <> k' -> lookup (remove_key k d) k' = lookup d k'.
Proof.
  intros Hne. induction d as [| [k0 v] d IH]; simpl; [reflexivity |].
  destruct (String.eqb k0 k) eqn:E.
  - apply String.eqb_eq in E. subst k0.
    apply String.eqb_neq in Hne. now rewrite Hne.
  - simpl. now rewrite IH.
Qed.

Lemma lookup_remove_key_eq (k : string) (d : dict) :
  lookup (remove_key k d) k = None.
Proof.
  induction d as [| [k0 v] d IH]; simpl; [reflexivity |].
  destruct (String.eqb k0 k) eqn:E; [exact IH |].
  simpl. now rewrite E.
Qed.

Lemma lookup_update (d : dict) (k k' : string) (f : json -> json) :
  lookup (update d k f) k'
  = if String.eqb k k' then option_map f (lookup d k') else lookup d k'.
Proof.
  induction d as [| [k0 v] d IH]; simpl.
  - now destruct (String.eqb k k').
  - destruct (String.eqb k0 k) eqn:E0; simpl.
    + apply String.eqb_eq in E0. subst k0.
      destruct (String.eqb k k'); [reflexivity |]. exact IH.
    + destruct (String.eqb k0 k') eqn:E1; [| exact IH].
      apply String.eqb_eq in E1. subst k0. now rewrite String.eqb_sym, E0.
Qed.

Lemma text_ok_remove_key (k : string) (b : dict) :
  k <> "type" -> text_ok b = true -> text_ok (remove_key k b) = true.
Proof.
  intros Hk. unfold text_ok, optional_string, get.
  rewrite (lookup_remove_key_ne k "type") by exact Hk.
  destruct (eq_str _ "text"); [| reflexivity].
  destruct (String.eqb k "text") eqn:E.
  - apply String.eqb_eq in E. subst k. now rewrite lookup_remove_key_eq.
  - apply String.eqb_neq in E. now rewrite lookup_remove_key_ne.
Qed.

Lemma on_block_user_ok (k : string) (i : nat) (blocks : list json) :
  k <> "type" -> forallb user_block_ok blocks = true ->
  forallb user_block_ok (on_block i (remove_key k) blocks) = true.
Proof.
  intros Hk. revert i; induction blocks as [| b blocks IH]; intros i H.
  - destruct i; exact H.
  - cbn [forallb] in H. apply andb_true_iff in H as [Hb H].
    destruct i as [| i].
    + destruct b; cbn [on_block forallb]; apply andb_true_iff; split; auto.
      cbn [user_block_ok] in *. now apply text_ok_remove_key.
    + destruct b; cbn [on_block forallb]; apply andb_true_iff; split; auto.
Qed.

Lemma on_block_assistant_ok (k : string) (i : nat) (blocks : list json) :
  k <> "type" -> forallb assistant_block_ok blocks = true ->
  forallb assistant_block_ok (on_block i (remove_key k) blocks) = true.
Proof.
  intros Hk. revert i; induction blocks as [| b blocks IH]; intros i H.
  - destruct i; exact H.
  - cbn [forallb] in H. apply andb_true_iff in H as [Hb H].
    destruct i as [| i].
    + destruct b; cbn [on_block forallb]; apply andb_true_iff; split; auto.
      cbn [assistant_block_ok] in *. now apply text_ok_remove_key.
    + destruct b; cbn [on_block forallb]; apply andb_true_iff; split; auto.
Qed.

Lemma well_shaped_remove_key (k : string) (msg : dict) :
  k <> "type" -> well_shaped msg = true ->
  well_shaped (remove_key k msg) = true.
Proof.
  intros Hk. unfold well_shaped.
  rewrite (lookup_remove_key_ne k "type") by exact Hk.
  destruct (lookup msg "type") as [ty |]; [| discriminate].
  destruct (String.eqb k "message") eqn:E.
  - apply String.eqb_eq in E. subst k. rewrite lookup_remove_key_eq.
    intros _. simpl. now destruct (eq_str ty "user"), (eq_str ty "assistant").
  - apply String.eqb_neq in E. now rewrite lookup_remove_key_ne.
Qed.

Lemma well_shaped_drop_block_field (k : string) (i : nat) (msg : dict) :
  k <> "type" -> well_shaped msg = true ->
  well_shaped (drop_block_field k i msg) = true.
Proof.
  intros Hk. unfold well_shaped, drop_block_field.
  rewrite !lookup_update. simpl.
  destruct (lookup msg "type") as [ty |]; [| discriminate].
  destruct (eq_str ty "user").
  - unfold user_payload_ok.
    destruct (lookup msg "message") as [[| | | | | c] |]; simpl; auto.
    rewrite lookup_update. simpl.
    destruct (lookup c "content") as [[| | | | parts |] |]; simpl; auto.
    now apply on_block_user_ok.
  - destruct (eq_str ty "assistant"); [| reflexivity].
    unfold assistant_payload_ok.
    destruct (lookup msg "message") as [[| | | | | c] |]; simpl; auto.
    rewrite lookup_update. simpl.
    destruct (lookup c "content") as [[| | | | blocks |] |]; simpl; auto.
    now apply on_block_assistant_ok.
Qed.

Lemma extract_content_remove_key (k : string) (msg : dict) :
  k <> "type" -> k <> "message" ->
  extract_content py_str (remove_key k msg) = extract_content py_str msg.
Proof.
  intros Ht Hm. unfold extract_content, getitem, get.
  now rewrite !(lookup_remove_key_ne k "type"),
              !(lookup_remove_key_ne k "message").
Qed.

(** The type of a record is not optional. *)
Lemma extract_content_missing_type (msg : dict) :
  lookup msg "type" = None -> extract_content py_str msg = Raise KeyError.
Proof. intros H. unfold extract_content, getitem. now rewrite H. Qed.

(** C9: a record of the data model, whichever of its optional fields are
    absent, extracts without raising; dropping [parentUuid], [sessionId] or
    [timestamp] does not change the result, a record without payload has no
    content, dropping [text], [name] or [input] from a block still extracts,
    and a record of another type has no content. *)
Theorem extract_content_total (msg : dict) :
  well_shaped msg = true ->
  (exists r, extract_content py_str msg = Ret r)
  /\ (forall k, In k ["parentUuid"; "sessionId"; "timestamp"] ->
        extract_content py_str (remove_key k msg) = extract_content py_str msg)
  /\ extract_content py_str (remove_key "message" msg) = Ret None
  /\ (forall k i, In k ["text"; "name"; "input"] ->
        exists r, extract_content py_str (drop_block_field k i msg) = Ret r)
  /\ (forall ty, lookup msg "type" = Some ty ->
        eq_str ty "user" = false -> eq_str ty "assistant" = false ->
        extract_content py_str msg = Ret None).
Proof.
  intros Hw. split; [| split; [| split; [| split]]].
  - now apply well_shaped_extract.
  - intros k Hk. apply extract_content_remove_key;
      simpl in Hk; intuition (subst; discriminate).
  - unfold extract_content, getitem, get.
    rewrite (lookup_remove_key_ne "message" "type") by discriminate.
    rewrite lookup_remove_key_eq.
    unfold well_shaped in Hw.
    destruct (lookup msg "type") as [ty |]; [| discriminate]. simpl.
    destruct (eq_str ty "user"); [reflexivity |].
    destruct (eq_str ty "assistant"); reflexivity.
  - intros k i Hk. apply well_shaped_extract, well_shaped_drop_block_field;
      [| exact Hw].
    simpl in Hk; intuition (subst; discriminate).
  - intros ty Hty Hu Ha. unfold extract_content, getitem.
    rewrite Hty. simpl. now rewrite Hu, Ha.
Qed.

End Extraction.

(** ** Record loading *)

Section Loading.

Variable json_loads : string -> option json.
Variable py_str : json -> string.

Lemma load_lines_malformed (lines : list string) (line : string) :
  In line lines -> strip line <> EmptyString ->
  ~ decodes_record json_loads line ->
  forall sessions, exists e, load_lines json_loads lines sessions = Raise e.
Proof.
  intros Hin Hnb Hbad.
  induction lines as [| l lines IH]; [contradiction |].
  intros sessions. cbn [load_lines].
  destruct Hin as [-> | Hin].
  - destruct (strip line) eqn:Es; [congruence |]. cbn [str_truthy].
    destruct (json_loads line) as [v |] eqn:Ev; [| eauto].
    destruct v; simpl; eauto.
    exfalso. apply Hbad. eexists; eauto.
  - destruct (str_truthy (strip l)); [| now apply IH].
    destruct (json_loads l) as [v |]; [| eauto].
    destruct v; simpl; eauto.
    destruct (hashable _); [now apply IH | eauto].
Qed.

Lemma load_lines_blank (pre post : list string) (blank : string) :
  strip blank = EmptyString ->
  forall sessions,
    load_lines json_loads (pre ++ blank :: post) sessions
    = load_lines json_loads (pre ++ post) sessions.
Proof.
  intros Hb. induction pre as [| l pre IH]; intros sessions.
  - cbn [app load_lines]. now rewrite Hb.
  - cbn [app load_lines].
    destruct (str_truthy (strip l)); [| now apply IH].
    destruct (json_loads l) as [v |]; [| reflexivity].
    destruct v; simpl; auto.
    destruct (hashable _); [now apply IH | reflexivity].
Qed.

(** C7: when some non-blank line does not decode to a structured record,
    loading raises, the run ends with that exception and the output file
    is never opened; a blank line is skipped and changes nothing. *)
Theorem malformed_line_aborts (fuel : nat) (cfg : config)
    (lines : list string) (line : string) :
  In line lines -> strip line <> EmptyString ->
  ~ decodes_record json_loads line ->
  (exists e, load_raw_data json_loads lines = Raise e
             /\ main json_loads py_str fuel cfg lines = (None, Raise e))
  /\ (forall pre post blank, strip blank = EmptyString ->
        load_raw_data json_loads (pre ++ blank :: post)
        = load_raw_data json_loads (pre ++ post)
        /\ main json_loads py_str fuel cfg (pre ++ blank :: post)
           = main json_loads py_str fuel cfg (pre ++ post)).
Proof.
  intros Hin Hnb Hbad. split.
  - destruct (load_lines_malformed lines line Hin Hnb Hbad []) as [e He].
    exists e. unfold main, load_raw_data. now rewrite He.
  - intros pre post blank Hb.
    assert (E : load_raw_data json_loads (pre ++ blank :: post)
                = load_raw_data json_loads (pre ++ post)).
    { unfold load_raw_data. now apply load_lines_blank. }
    split; [exact E |]. unfold main. now rewrite E.
Qed.

End Loading.

(** ** Parent links *)

Lemma key_eq_sym (v w : json) : key_eq v w = key_eq w v.
Proof.
  destruct v, w; simpl; try reflexivity;
    try apply Z.eqb_sym; try apply String.eqb_sym;
    repeat match goal with b : bool |- _ => destruct b end;
    try reflexivity; apply Z.eqb_sym.
Qed.

Lemma key_eq_trans (u v w : json) :
  key_eq u v = true -> key_eq v w = true -> key_eq u w = true.
Proof.
  destruct u, v, w; simpl; try discriminate; auto;
    rewrite ?Z.eqb_eq, ?String.eqb_eq; try congruence;
    repeat match goal with b : bool |- _ => destruct b end;
    intros; subst; try discriminate; try reflexivity; try lia.
Qed.

Lemma key_eq_truthy (v w : json) :
  key_eq v w = true -> truthy v = truthy w.
Proof.
  destruct v, w; simpl; try discriminate; auto;
    rewrite ?Z.eqb_eq, ?String.eqb_eq; intros; subst; auto;
    repeat match goal with b : bool |- _ => destruct b end;
    try reflexivity; try discriminate.
Qed.

Lemma next_msg_first_child (messages : list dict) (i : nat) (current : dict)
    (u : json) :
  lookup current "uuid" = Some u ->
  next_msg messages i current = Ret (first_child u messages i).
Proof.
  intros Hu. revert i; induction messages as [| msg rest IH]; intros i.
  - reflexivity.
  - cbn [next_msg first_child]. unfold getitem. rewrite Hu. cbn [bind].
    fold (parent_of msg). destruct (key_eq (parent_of msg) u); auto.
Qed.

Lemma next_msg_Some_inv (messages : list dict) (i : nat) (current : dict)
    (r : ref) :
  next_msg messages i current = Ret (Some r) ->
  exists u, lookup current "uuid" = Some u
            /\ first_child u messages i = Some r.
Proof.
  destruct messages as [| msg rest]; [discriminate |].
  destruct (lookup current "uuid") as [u |] eqn:Hu.
  - rewrite (next_msg_first_child _ _ _ u Hu). intros H.
    exists u. split; [reflexivity | congruence].
  - cbn [next_msg]. unfold getitem. rewrite Hu. discriminate.
Qed.

Lemma first_child_Some (u : json) (messages : list dict) (i : nat) (r : ref) :
  first_child u messages i = Some r <->
  i <= fst r
  /\ nth_error messages (fst r - i) = Some (snd r)
  /\ key_eq (parent_of (snd r)) u = true
  /\ (forall j m, j < fst r - i -> nth_error messages j = Some m ->
                  key_eq (parent_of m) u = false).
Proof.
  revert i; induction messages as [| msg rest IH]; intros i; cbn [first_child].
  - split; [discriminate |]. intros (_ & H & _).
    destruct (fst r - i); discriminate.
  - destruct (key_eq (parent_of msg) u) eqn:E.
    + split.
      * intros H; injection H as <-. cbn [fst snd].
        rewrite Nat.sub_diag. repeat split; auto. intros j m Hj; lia.
      * intros (Hi & Hn & Hk & Hf). destruct (fst r - i) as [| d] eqn:Ed.
        -- cbn in Hn. injection Hn as Hn. destruct r as [j m]; cbn in *.
           subst. f_equal. f_equal. lia.
        -- specialize (Hf 0 msg ltac:(lia) eq_refl). congruence.
    + rewrite IH. split.
      * intros (Hi & Hn & Hk & Hf).
        replace (fst r - i) with (S (fst r - S i)) by lia.
        repeat split; auto; try lia.
        intros [| j] m Hj Hm; cbn in Hm.
        -- congruence.
        -- apply (Hf j m); [lia | exact Hm].
      * intros (Hi & Hn & Hk & Hf). destruct (fst r - i) as [| d] eqn:Ed.
        -- cbn in Hn. congruence.
        -- cbn in Hn. replace (fst r - S i) with d by lia.
           repeat split; auto; try lia.
           intros j m Hj Hm. apply (Hf (S j) m); [lia | exact Hm].
Qed.

(** ** Walks *)

Section Walks.

Variable py_str : json -> string.

Lemma loop_cond_Some (st : state) (x : ref) :
  loop_cond st = Some x -> fst st = Some x.
Proof.
  unfold loop_cond. destruct (fst st) as [[i cur] |]; [| discriminate].
  destruct (truthy (JObj cur)); [congruence | discriminate].
Qed.

Lemma visited_head (n : nat) (messages : list dict) (st : state)
    (x : ref) (l : list ref) :
  visited py_str n messages st = x :: l -> fst st = Some x.
Proof.
  destruct n as [| n]; cbn [visited]; [discriminate |].
  destruct (loop_cond st) as [cur |] eqn:E; [| discriminate].
  intros H; injection H as -> _. now apply loop_cond_Some.
Qed.

Lemma visited_chain (n : nat) (messages : list dict) (st : state) :
  chain messages (visited py_str n messages st).
Proof.
  revert st; induction n as [| n IH]; intros st; cbn [visited].
  - constructor.
  - destruct (loop_cond st) as [cur |]; [| constructor].
    destruct (walk_body py_str messages cur (snd st)) as [st' | e |] eqn:Eb;
      try constructor.
    specialize (IH st').
    destruct (visited py_str n messages st') as [| y l] eqn:Ev;
      constructor; [| exact IH].
    apply visited_head in Ev.
    apply walk_body_inv in Eb as [Hn _]. now rewrite Hn, Ev.
Qed.

Lemma chain_selected (messages : list dict) (l : list ref) :
  chain messages l ->
  forall y, In y (tl l) ->
            exists x, In x l /\ next_msg messages 0 (snd x) = Ret (Some y).
Proof.
  induction 1 as [| x | x y l Hxy Hc IH]; cbn [tl]; try contradiction.
  intros z [<- | Hz].
  - exists x. split; [now left | exact Hxy].
  - destruct (IH z Hz) as (w & Hw & Hwz). exists w. split; [now right | exact Hwz].
Qed.

Lemma first_child_valid (u : json) (messages : list dict) (r : ref) :
  first_child u messages 0 = Some r -> valid_ref messages r.
Proof.
  intros H. apply first_child_Some in H as (_ & H & _).
  unfold valid_ref. now rewrite Nat.sub_0_r in H.
Qed.

(** A record that comes after another child of the same parent is never
    the answer of a child search. *)
Lemma later_sibling_not_selected (messages : list dict) (B C : dict)
    (ua : json) (b c : nat) :
  nth_error messages b = Some B -> nth_error messages c = Some C ->
  key_eq (parent_of B) ua = true -> key_eq (parent_of C) ua = true ->
  b < c ->
  forall current r, next_msg messages 0 current = Ret (Some r) -> fst r <> c.
Proof.
  intros HB HC HpB HpC Hlt current r Hn Hr.
  apply next_msg_Some_inv in Hn as (u & _ & Hf).
  apply first_child_Some in Hf as (_ & Hnth & Hk & Hmin).
  rewrite Nat.sub_0_r in Hnth, Hmin. rewrite Hr in Hnth, Hmin.
  assert (snd r = C) by congruence. subst C.
  assert (E : key_eq (parent_of B) u = true).
  { apply key_eq_trans with ua; [exact HpB |].
    apply key_eq_trans with (parent_of (snd r)); [| exact Hk].
    now rewrite key_eq_sym. }
  rewrite (Hmin b B Hlt HB) in E. discriminate.
Qed.

(** C3 (amended): when [B] is the first record in input order whose
    [parentUuid] equals the uuid of [A], and [C] is a later record with the
    same [parentUuid], the walk goes from [A] to [B], and [C] is not
    visited by the walk from [A]. *)
Theorem first_child_followed (messages : list dict) (A B C : dict)
    (ua : json) (a b c : nat) :
  nth_error messages a = Some A ->
  nth_error messages b = Some B ->
  nth_error messages c = Some C ->
  lookup A "uuid" = Some ua ->
  key_eq (parent_of B) ua = true ->
  key_eq (parent_of C) ua = true ->
  b < c -> a <> c ->
  (forall j m, j < b -> nth_error messages j = Some m ->
               key_eq (parent_of m) ua = false) ->
  next_msg messages 0 A = Ret (Some (b, B))
  /\ (forall conv st', walk_body py_str messages (a, A) conv = Ret st' ->
                       fst st' = Some (b, B))
  /\ (forall n conv,
        ~ In c (map fst (visited py_str n messages (Some (a, A), conv)))).
Proof.
  intros HA HB HC Hua HpB HpC Hlt Hac Hfirst.
  assert (Hnext : next_msg messages 0 A = Ret (Some (b, B))).
  { rewrite (next_msg_first_child _ _ _ ua Hua). f_equal.
    apply first_child_Some. cbn [fst snd]. rewrite Nat.sub_0_r.
    repeat split; auto. lia. }
  split; [exact Hnext |]. split.
  - intros conv st' Hb. apply walk_body_inv in Hb as [Hn _].
    cbn [snd] in Hn. congruence.
  - intros n conv Hin.
    apply in_map_iff in Hin as (r & Hr & Hin).
    pose proof (visited_chain n messages (Some (a, A), conv)) as Hc.
    destruct (visited py_str n messages (Some (a, A), conv)) as [| x l] eqn:Ev;
      [contradiction |].
    apply visited_head in Ev. cbn [fst] in Ev. injection Ev as <-.
    destruct Hin as [<- | Hin]; [cbn in Hr; congruence |].
    destruct (chain_selected messages _ Hc r Hin) as (w & _ & Hw).
    exact (later_sibling_not_selected messages B C ua b c HB HC HpB HpC Hlt
             (snd w) r Hw Hr).
Qed.

End Walks.

(** ** Roots *)

Lemma build_msg_map_keys (messages : list dict) (acc keys : list json) :
  build_msg_map messages acc = Ret keys ->
  exists us, keys = acc ++ us
             /\ Forall2 (fun m u => lookup m "uuid" = Some u
                                    /\ hashable u = true) messages us.
Proof.
  revert acc; induction messages as [| m messages IH]; intros acc H;
    cbn [build_msg_map] in H.
  - injection H as <-. exists []. split; [now rewrite app_nil_r | constructor].
  - apply bind_Ret_inv in H as (u & Hu & H).
    destruct (hashable u) eqn:Eh; [| discriminate].
    apply IH in H as (us & -> & HF).
    exists (u :: us). split; [now rewrite <- app_assoc |].
    constructor; [| exact HF]. split; [| exact Eh].
    unfold getitem in Hu. destruct (lookup m "uuid"); now inversion Hu.
Qed.

Lemma keys_resolve (messages : list dict) (us : list json) (parent : json) :
  Forall2 (fun m u => lookup m "uuid" = Some u /\ hashable u = true)
          messages us ->
  existsb (key_eq parent) us = true <-> resolves parent messages.
Proof.
  unfold resolves. induction 1 as [| m u messages us [Hu _] HF IH];
    cbn [existsb].
  - split; [discriminate | intros (m & u & [] & _)].
  - rewrite orb_true_iff, IH. split.
    + intros [Hk | (m' & u' & Hin & Hu' & Hk)].
      * exists m, u. repeat split; auto. now left.
      * exists m', u'. repeat split; auto. now right.
    + intros (m' & u' & [<- | Hin] & Hu' & Hk).
      * left. congruence.
      * right. exists m', u'. auto.
Qed.

Lemma nth_error_cons_from (msg m : dict) (rest : list dict) (i j : nat) :
  i <= j /\ nth_error (msg :: rest) (j - i) = Some m
  <-> (j = i /\ m = msg) \/ (S i <= j /\ nth_error rest (j - S i) = Some m).
Proof.
  split.
  - intros [Hi Hn]. destruct (j - i) as [| d] eqn:Ed; cbn in Hn.
    + left. split; [lia | congruence].
    + right. split; [lia |]. now replace (j - S i) with d by lia.
  - intros [[-> ->] | [Hi Hn]].
    + rewrite Nat.sub_diag. auto.
    + split; [lia |]. now replace (j - i) with (S (j - S i)) by lia.
Qed.

Lemma find_roots_In (msg_map : list json) (messages : list dict) (i : nat)
    (acc roots : list ref) :
  find_roots msg_map messages i acc = Ret roots ->
  forall j m, In (j, m) roots <->
              In (j, m) acc
              \/ (i <= j /\ nth_error messages (j - i) = Some m
                  /\ is_root msg_map m = true).
Proof.
  revert i acc; induction messages as [| msg rest IH]; intros i acc H j m;
    cbn [find_roots] in H.
  - injection H as <-. split; [auto |].
    intros [? | (_ & Hn & _)]; [assumption |]. destruct (j - i); discriminate.
  - fold (parent_of msg) in H.
    assert (Hsplit :
      (i <= j /\ nth_error (msg :: rest) (j - i) = Some m
       /\ is_root msg_map m = true)
      <-> ((j = i /\ m = msg) /\ is_root msg_map msg = true)
          \/ (S i <= j /\ nth_error rest (j - S i) = Some m
              /\ is_root msg_map m = true)).
    { pose proof (nth_error_cons_from msg m rest i j) as Hc.
      split.
      - intros (H1 & H2 & H3).
        destruct (proj1 Hc (conj H1 H2)) as [[-> ->] | [H4 H5]]; auto.
      - intros [[[-> ->] H3] | (H4 & H5 & H6)].
        + destruct (proj2 Hc (or_introl (conj eq_refl eq_refl))); auto.
        + destruct (proj2 Hc (or_intror (conj H4 H5))); auto. }
    rewrite Hsplit. unfold is_root at 1.
    destruct (truthy (parent_of msg)) eqn:Et; cbn [negb] in H.
    + apply bind_Ret_inv in H as (found & Hm & H).
      unfold member in Hm. destruct (hashable (parent_of msg)); [| discriminate].
      injection Hm as <-.
      destruct (existsb (key_eq (parent_of msg)) msg_map); cbn [negb orb] in *.
      * rewrite (IH _ _ H). intuition congruence.
      * rewrite (IH _ _ H), in_app_iff. cbn [In]. intuition congruence.
    + cbn [orb]. rewrite (IH _ _ H), in_app_iff. cbn [In]. intuition congruence.
Qed.

Lemma root_iff (messages : list dict) (msg_map : list json)
    (roots : list ref) (i : nat) (msg : dict) :
  build_msg_map messages [] = Ret msg_map ->
  find_roots msg_map messages 0 [] = Ret roots ->
  nth_error messages i = Some msg ->
  In (i, msg) roots
  <-> truthy (parent_of msg) = false \/ ~ resolves (parent_of msg) messages.
Proof.
  intros Hmap Hroots Hnth.
  apply build_msg_map_keys in Hmap as (us & -> & HF). cbn [app] in Hroots.
  pose proof (find_roots_In us messages 0 [] roots Hroots i msg) as Hin.
  rewrite Nat.sub_0_r in Hin.
  assert (Hiff : In (i, msg) roots <-> is_root us msg = true).
  { rewrite Hin. cbn [In]. intuition lia. }
  rewrite Hiff. unfold is_root.
  rewrite orb_true_iff, !negb_true_iff, <- (keys_resolve messages us _ HF).
  destruct (existsb _ us); intuition congruence.
Qed.

(** C4 (amended): a record is collected as a root exactly when its
    [parentUuid] is falsy (missing, null, or empty) or equals the uuid of
    no record of the session; in particular a record without [parentUuid]
    is a root whatever the other records hold. *)
Theorem root_classification (messages : list dict) (msg_map : list json)
    (roots : list ref) (i : nat) (msg : dict) :
  build_msg_map messages [] = Ret msg_map ->
  find_roots msg_map messages 0 [] = Ret roots ->
  nth_error messages i = Some msg ->
  (In (i, msg) roots
   <-> truthy (parent_of msg) = false \/ ~ resolves (parent_of msg) messages)
  /\ (lookup msg "parentUuid" = None -> In (i, msg) roots)
  /\ (lookup msg "parentUuid" = Some JNull -> In (i, msg) roots)
  /\ (lookup msg "parentUuid" = Some (JStr EmptyString) -> In (i, msg) roots).
Proof.
  intros Hmap Hroots Hnth.
  pose proof (root_iff messages msg_map roots i msg Hmap Hroots Hnth) as Hiff.
  assert (Hfalsy : truthy (parent_of msg) = false -> In (i, msg) roots).
  { intros Ht. apply Hiff. now left. }
  split; [exact Hiff |].
  repeat split; intros Hl; apply Hfalsy; unfold parent_of, get; now rewrite Hl.
Qed.

(** ** Termination of the walks *)

Section Termination.

Variable py_str : json -> string.

Lemma bind_no_fuel {A B : Type} (c : res A) (k : A -> res B) :
  c <> OutOfFuel -> (forall a, k a <> OutOfFuel) -> bind c k <> OutOfFuel.
Proof. destruct c; simpl; intros; auto; discriminate. Qed.

Ltac no_fuel :=
  repeat match goal with
         | |- Ret _ <> OutOfFuel => discriminate
         | |- Raise _ <> OutOfFuel => discriminate
         | |- bind _ _ <> OutOfFuel => apply bind_no_fuel; [| intros ?]
         | |- (match ?x with _ => _ end) <> OutOfFuel => destruct x
         end.

Lemma strings_of_no_fuel (l : list json) : strings_of l <> OutOfFuel.
Proof.
  induction l as [| v l IH]; cbn [strings_of]; [discriminate |].
  destruct v; try discriminate. no_fuel. exact IH.
Qed.

Lemma assistant_blocks_no_fuel (blocks texts : list json)
    (tool_uses : list string) :
  assistant_blocks py_str blocks texts tool_uses <> OutOfFuel.
Proof.
  revert texts tool_uses; induction blocks as [| b blocks IH];
    intros texts tool_uses; cbn [assistant_blocks]; [discriminate |].
  unfold attr_get. destruct b; cbn [bind]; try discriminate.
  destruct (eq_str _ "text"); [apply IH |].
  destruct (eq_str _ "tool_use"); apply IH.
Qed.

Lemma extract_content_no_fuel (msg : dict) :
  extract_content py_str msg <> OutOfFuel.
Proof.
  unfold extract_content, getitem, join_values, attr_get, iterate.
  destruct (lookup msg "type") as [ty |]; cbn [bind]; [| discriminate].
  destruct (eq_str ty "user").
  - no_fuel; apply strings_of_no_fuel.
  - destruct (eq_str ty "assistant"); [| discriminate].
    destruct (get msg "message" (JObj [])); cbn [bind]; try discriminate.
    destruct (get o "content" (JArr [])); cbn [bind]; try discriminate;
      (apply bind_no_fuel; [apply assistant_blocks_no_fuel |]);
      intros [texts tool_uses]; no_fuel; apply strings_of_no_fuel.
Qed.

Lemma next_msg_no_fuel (messages : list dict) (i : nat) (current : dict) :
  next_msg messages i current <> OutOfFuel.
Proof.
  revert i; induction messages as [| m messages IH]; intros i;
    cbn [next_msg]; [discriminate |].
  unfold getitem. destruct (lookup current "uuid"); cbn [bind];
    [| discriminate].
  destruct (key_eq _ _); [discriminate | apply IH].
Qed.

Lemma walk_body_no_fuel (messages : list dict) (current : ref)
    (conv : conversation) :
  walk_body py_str messages current conv <> OutOfFuel.
Proof.
  unfold walk_body.
  apply bind_no_fuel; [apply extract_content_no_fuel | intros c].
  apply bind_no_fuel.
  - unfold getitem. no_fuel.
  - intros conv'. apply bind_no_fuel; [apply next_msg_no_fuel |].
    intros next. discriminate.
Qed.

(** When the fuel runs out, every iteration has visited a record. *)
Lemma walk_OutOfFuel_visited (n : nat) (messages : list dict) (st : state) :
  walk py_str n messages st = OutOfFuel ->
  List.length (visited py_str (S n) messages st) = S n.
Proof.
  revert st; induction n as [| n IH]; intros st H.
  - cbn [walk] in H. cbn [visited].
    destruct (loop_cond st); [| discriminate].
    now destruct (walk_body py_str messages r (snd st)).
  - cbn [walk] in H. remember (S n) as k. cbn [visited]. subst k.
    destruct (loop_cond st) as [cur |]; [| discriminate].
    apply bind_OutOfFuel_inv in H as [H | (st' & Hb & H)].
    + now apply walk_body_no_fuel in H.
    + rewrite Hb. cbn [List.length]. now rewrite (IH st' H).
Qed.

Lemma chain_valid (messages : list dict) (l : list ref) :
  forall x, chain messages (x :: l) -> valid_ref messages x ->
            Forall (valid_ref messages) (x :: l).
Proof.
  induction l as [| y l IH]; intros x Hc Hx.
  - constructor; [exact Hx | constructor].
  - inversion Hc as [| | ? ? ? Hxy Hc']; subst.
    constructor; [exact Hx |].
    apply IH; [exact Hc' |].
    apply next_msg_Some_inv in Hxy as (u & _ & Hf).
    now apply first_child_valid in Hf.
Qed.

Lemma parent_unique (messages : list dict) (x x' z : ref) :
  distinct_uuids messages ->
  valid_ref messages x -> valid_ref messages x' ->
  next_msg messages 0 (snd x) = Ret (Some z) ->
  next_msg messages 0 (snd x') = Ret (Some z) ->
  x = x'.
Proof.
  intros Hd Hx Hx' Hn Hn'.
  apply next_msg_Some_inv in Hn as (u & Hu & Hf).
  apply next_msg_Some_inv in Hn' as (u' & Hu' & Hf').
  apply first_child_Some in Hf as (_ & _ & Hk & _).
  apply first_child_Some in Hf' as (_ & _ & Hk' & _).
  assert (E : key_eq u u' = true).
  { apply key_eq_trans with (parent_of (snd z)); [| exact Hk'].
    now rewrite key_eq_sym. }
  pose proof (Hd _ _ _ _ _ _ Hx Hx' Hu Hu' E) as Hi.
  unfold valid_ref in Hx, Hx'. destruct x as [i m], x' as [i' m'].
  cbn [fst snd] in *. subst i'. congruence.
Qed.

Lemma chain_NoDup (messages : list dict) (l : list ref) :
  distinct_uuids messages ->
  forall x, chain messages (x :: l) ->
            Forall (valid_ref messages) (x :: l) ->
            (forall y, In y (x :: l) ->
                       next_msg messages 0 (snd y) <> Ret (Some x)) ->
            NoDup (x :: l).
Proof.
  intros Hd. induction l as [| x' l IH]; intros x Hc Hv Hroot.
  - constructor; [intros [] | constructor].
  - assert (Hnotin : ~ In x (x' :: l)).
    { intros Hin.
      destruct (chain_selected messages _ Hc x Hin) as (w & Hw & Hwx).
      exact (Hroot w Hw Hwx). }
    constructor; [exact Hnotin |].
    inversion Hc as [| | ? ? ? Hxx' Hc' ]; subst.
    inversion Hv as [| ? ? Hvx Hv']; subst.
    apply IH; auto.
    intros y Hy Hyx'.
    assert (y = x).
    { apply (parent_unique messages y x x'); auto.
      rewrite Forall_forall in Hv'. now apply Hv'. }
    subst y. contradiction.
Qed.

Lemma valid_refs_bound (messages : list dict) (l : list ref) :
  NoDup l -> Forall (valid_ref messages) l ->
  NoDup (map fst l) /\ List.length l <= List.length messages.
Proof.
  intros Hnd Hv.
  assert (Hnd' : NoDup (map fst l)).
  { induction Hnd as [| x l Hx Hnd IH]; cbn [map]; constructor.
    - inversion Hv as [| ? ? Hvx Hvl]; subst.
      intros Hin. apply in_map_iff in Hin as (y & Hy & Hin).
      rewrite Forall_forall in Hvl. specialize (Hvl y Hin).
      unfold valid_ref in Hvx, Hvl. destruct x, y; cbn [fst snd] in *.
      subst. assert (d = d0) by congruence. subst. contradiction.
    - apply IH. now inversion Hv. }
  split; [exact Hnd' |].
  replace (List.length l) with (List.length (map fst l))
    by apply length_map.
  replace (List.length messages)
    with (List.length (seq 0 (List.length messages))) by apply length_seq.
  apply NoDup_incl_length; [exact Hnd' |].
  intros i Hi. apply in_map_iff in Hi as (y & <- & Hin).
  rewrite Forall_forall in Hv. specialize (Hv y Hin).
  apply in_seq. split; [lia |]. cbn.
  apply nth_error_Some. unfold valid_ref in Hv. congruence.
Qed.

(** From a root of a session with distinct uuids and no falsy link, a walk
    visits each record at most once and ends within as many iterations as
    the session has records. *)
Lemma walk_terminates (messages : list dict) (msg_map : list json)
    (roots : list ref) (root : ref) :
  build_msg_map messages [] = Ret msg_map ->
  find_roots msg_map messages 0 [] = Ret roots ->
  distinct_uuids messages -> no_falsy_link messages ->
  In root roots ->
  (forall n, NoDup (map fst (visited py_str n messages (Some root, []))))
  /\ walk py_str (List.length messages) messages (Some root, []) <> OutOfFuel.
Proof.
  intros Hmap Hroots Hd Hl Hin.
  destruct root as [i m].
  assert (Hvalid : valid_ref messages (i, m)).
  { pose proof Hmap as Hmap'.
    apply build_msg_map_keys in Hmap' as (us & -> & _). cbn [app] in Hroots.
    apply (find_roots_In us messages 0 [] roots Hroots) in Hin
      as [[] | (_ & Hn & _)].
    unfold valid_ref. cbn [fst snd]. now rewrite Nat.sub_0_r in Hn. }
  assert (Hnopred : forall y, valid_ref messages y ->
                              next_msg messages 0 (snd y) <> Ret (Some (i, m))).
  { intros y Hy Hn.
    apply next_msg_Some_inv in Hn as (u & Hu & Hf).
    apply first_child_Some in Hf as (_ & _ & Hk & _). cbn [snd] in Hk.
    assert (Hres : resolves (parent_of m) messages).
    { exists (snd y), u. repeat split; auto.
      eapply nth_error_In. exact Hy. }
    apply (root_iff messages msg_map roots i m Hmap Hroots Hvalid) in Hin
      as [Hf | Hnr]; [| contradiction].
    rewrite Hl in Hf; [discriminate | | exact Hres].
    eapply nth_error_In. exact Hvalid. }
  assert (Hbound : forall n,
             NoDup (map fst (visited py_str n messages (Some (i, m), [])))
             /\ List.length (visited py_str n messages (Some (i, m), []))
                <= List.length messages).
  { intros n.
    pose proof (visited_chain py_str n messages (Some (i, m), [])) as Hc.
    destruct (visited py_str n messages (Some (i, m), [])) as [| x l] eqn:Ev.
    - split; [constructor | cbn; lia].
    - pose proof (visited_head py_str _ _ _ _ _ Ev) as Hx.
      cbn [fst] in Hx. injection Hx as <-.
      pose proof (chain_valid messages _ _ Hc Hvalid) as Hv.
      apply valid_refs_bound; [| exact Hv].
      apply (chain_NoDup messages); auto.
      intros y Hy. apply Hnopred. rewrite Forall_forall in Hv. now apply Hv. }
  split; [intros n; apply Hbound |].
  intros Hout. apply walk_OutOfFuel_visited in Hout.
  destruct (Hbound (S (List.length messages))) as [_ Hle].
  pose proof (eq_ind _ (fun k => k <= List.length messages) Hle _ Hout) as Hk.
  cbv beta in Hk. lia.
Qed.

Lemma reconstruct_sessions_out_of_fuel (fuel : nat) (cfg : config)
    (session_id : json) (messages : list dict) (rest : sessions_t)
    (msg_map : list json) (roots : list ref) (acc : list conversation) :
  build_msg_map messages [] = Ret msg_map ->
  find_roots msg_map messages 0 [] = Ret roots ->
  build_conversations py_str fuel cfg messages roots acc = OutOfFuel ->
  reconstruct_sessions py_str fuel cfg ((session_id, messages) :: rest) acc
  = OutOfFuel.
Proof.
  intros Hmap Hroots Hbuild. cbn [reconstruct_sessions].
  rewrite Hmap. cbn [bind]. rewrite Hroots. cbn [bind].
  now rewrite Hbuild.
Qed.

Lemma self_parent_body (conv : conversation) :
  walk_body py_str [self_parent] (0, self_parent) conv
  = Ret (Some (0, self_parent),
         conv ++ [{| turn_role := user; content := "hi";
                     timestamp := JStr ""; uuid := JStr "" |}]).
Proof. reflexivity. Qed.

Lemma self_parent_walk (fuel : nat) (conv : conversation) :
  walk py_str fuel [self_parent] (Some (0, self_parent), conv) = OutOfFuel.
Proof.
  revert conv; induction fuel as [| fuel IH]; intros conv.
  - reflexivity.
  - cbn [walk loop_cond fst snd self_parent truthy].
    fold self_parent. rewrite self_parent_body. cbn [bind]. apply IH.
Qed.

Lemma self_parent_visited (n : nat) (conv : conversation) :
  visited py_str n [self_parent] (Some (0, self_parent), conv)
  = repeat (0, self_parent) n.
Proof.
  revert conv; induction n as [| n IH]; intros conv.
  - reflexivity.
  - cbn [visited loop_cond fst snd self_parent truthy repeat].
    fold self_parent. rewrite self_parent_body. now rewrite IH.
Qed.

(** C10 (failing input): the session made of the single record
    [self_parent] has pairwise-distinct uuids, the record is collected as a
    root, and the walk from it finds the record itself as its child at
    every iteration: it never ends, whatever the fuel, and
    [reconstruct_conversations] returns nothing. *)
Theorem self_parent_walk_diverges (fuel : nat) (cfg : config) :
  distinct_uuids [self_parent]
  /\ build_msg_map [self_parent] [] = Ret [JStr ""]
  /\ find_roots [JStr ""] [self_parent] 0 [] = Ret [(0, self_parent)]
  /\ walk py_str fuel [self_parent] (Some (0, self_parent), []) = OutOfFuel
  /\ visited py_str fuel [self_parent] (Some (0, self_parent), [])
     = repeat (0, self_parent) fuel
  /\ reconstruct_conversations py_str fuel cfg [(JStr "s", [self_parent])]
     = OutOfFuel.
Proof.
  split; [| split; [| split; [| split; [| split]]]].
  - intros [| i] [| j] mi mj ui uj Hi Hj; cbn in Hi, Hj; auto;
      try (destruct i; discriminate); destruct j; discriminate.
  - reflexivity.
  - reflexivity.
  - apply self_parent_walk.
  - apply self_parent_visited.
  - unfold reconstruct_conversations.
    apply reconstruct_sessions_out_of_fuel
      with (msg_map := [JStr ""]) (roots := [(0, self_parent)]);
      try reflexivity.
    cbn [build_conversations]. now rewrite self_parent_walk.
Qed.

End Termination.

(** ** Fuel *)

Section Fuel.

Variable py_str : json -> string.

(** A walk that ends within [n] iterations gives the same outcome with
    any larger fuel. *)
Lemma walk_more_fuel (n m : nat) (messages : list dict) (st : state) :
  n <= m -> walk py_str n messages st <> OutOfFuel ->
  walk py_str m messages st = walk py_str n messages st.
Proof.
  revert m st; induction n as [| n IH]; intros m st Hle Hn.
  - cbn [walk] in *. destruct m; cbn [walk];
      destruct (loop_cond st); congruence.
  - destruct m as [| m]; [lia |]. cbn [walk] in *.
    destruct (loop_cond st) as [cur |]; [| reflexivity].
    destruct (walk_body py_str messages cur (snd st)) as [st' | e |];
      cbn [bind] in *; try reflexivity.
    apply IH; [lia | exact Hn].
Qed.

Lemma build_conversations_more_fuel (n m : nat) (cfg : config)
    (messages : list dict) (roots : list ref) (acc : list conversation) :
  n <= m ->
  build_conversations py_str n cfg messages roots acc <> OutOfFuel ->
  build_conversations py_str m cfg messages roots acc
  = build_conversations py_str n cfg messages roots acc.
Proof.
  intros Hle. revert acc; induction roots as [| root roots IH];
    intros acc Hn; cbn [build_conversations] in *; [reflexivity |].
  assert (Hw : walk py_str n messages (Some root, []) <> OutOfFuel).
  { intros E. rewrite E in Hn. now apply Hn. }
  rewrite (walk_more_fuel n m messages _ Hle Hw).
  destruct (walk py_str n messages (Some root, [])) as [conv | e |];
    cbn [bind] in *; try reflexivity.
  destruct (min_turns cfg <=? Z.of_nat (List.length conv))%Z; now apply IH.
Qed.

Lemma reconstruct_sessions_more_fuel (n m : nat) (cfg : config)
    (sessions : sessions_t) (acc : list conversation) :
  n <= m ->
  reconstruct_sessions py_str n cfg sessions acc <> OutOfFuel ->
  reconstruct_sessions py_str m cfg sessions acc
  = reconstruct_sessions py_str n cfg sessions acc.
Proof.
  intros Hle. revert acc; induction sessions as [| [sid messages] rest IH];
    intros acc Hn; cbn [reconstruct_sessions] in *; [reflexivity |].
  destruct (build_msg_map messages []) as [msg_map | e |]; cbn [bind] in *;
    try reflexivity.
  destruct (find_roots msg_map messages 0 []) as [roots | e |];
    cbn [bind] in *; try reflexivity.
  assert (Hb : build_conversations py_str n cfg messages roots acc
               <> OutOfFuel).
  { intros E. rewrite E in Hn. now apply Hn. }
  rewrite (build_conversations_more_fuel n m cfg messages roots acc Hle Hb).
  destruct (build_conversations py_str n cfg messages roots acc)
    as [acc' | e |]; cbn [bind] in *; try reflexivity.
  now apply IH.
Qed.

Lemma build_msg_map_no_fuel (messages : list dict) (acc : list json) :
  build_msg_map messages acc <> OutOfFuel.
Proof.
  revert acc; induction messages as [| m messages IH]; intros acc;
    cbn [build_msg_map]; [discriminate |].
  unfold getitem. destruct (lookup m "uuid") as [u |]; cbn [bind];
    [| discriminate].
  destruct (hashable u); [apply IH | discriminate].
Qed.

Lemma find_roots_no_fuel (msg_map : list json) (messages : list dict)
    (i : nat) (acc : list ref) :
  find_roots msg_map messages i acc <> OutOfFuel.
Proof.
  revert i acc; induction messages as [| m messages IH]; intros i acc;
    cbn [find_roots]; [discriminate |].
  destruct (negb (truthy _)); [apply IH |].
  unfold member. destruct (hashable _); cbn [bind]; [| discriminate].
  destruct (negb _); apply IH.
Qed.

Lemma build_conversations_terminates (fuel : nat) (cfg : config)
    (messages : list dict) (roots : list ref) (acc : list conversation) :
  (forall root, In root roots ->
                walk py_str fuel messages (Some root, []) <> OutOfFuel) ->
  build_conversations py_str fuel cfg messages roots acc <> OutOfFuel.
Proof.
  revert acc; induction roots as [| root roots IH]; intros acc Hw;
    cbn [build_conversations]; [discriminate |].
  apply bind_no_fuel; [apply Hw; now left |].
  intros conv.
  destruct (min_turns cfg <=? Z.of_nat (List.length conv))%Z;
    apply IH; intros r Hr; apply Hw; now right.
Qed.

(** With distinct uuids and no falsy link in any session, and fuel for as
    many iterations as the longest session has records, reconstruction
    ends: it returns conversations or raises. *)
Lemma reconstruct_terminates (fuel : nat) (cfg : config)
    (sessions : sessions_t) (acc : list conversation) :
  (forall sid messages, In (sid, messages) sessions ->
     distinct_uuids messages /\ no_falsy_link messages
     /\ List.length messages <= fuel) ->
  reconstruct_sessions py_str fuel cfg sessions acc <> OutOfFuel.
Proof.
  revert acc; induction sessions as [| [sid messages] rest IH];
    intros acc H; cbn [reconstruct_sessions]; [discriminate |].
  destruct (H sid messages (or_introl eq_refl)) as (Hd & Hl & Hlen).
  destruct (build_msg_map messages []) as [msg_map | e |] eqn:Emap;
    cbn [bind]; try discriminate;
    [| now apply build_msg_map_no_fuel in Emap].
  destruct (find_roots msg_map messages 0 []) as [roots | e |] eqn:Eroots;
    cbn [bind]; try discriminate;
    [| now apply find_roots_no_fuel in Eroots].
  apply bind_no_fuel.
  - apply build_conversations_terminates. intros root Hroot.
    destruct (walk_terminates py_str messages msg_map roots root
                Emap Eroots Hd Hl Hroot) as [_ Hw].
    rewrite (walk_more_fuel _ fuel messages _ Hlen Hw). exact Hw.
  - intros acc'. apply IH. intros sid' messages' Hin. apply (H sid' messages'). now right.
Qed.

End Fuel.

(** ** Blank strings and words *)





Lemma is_word_snoc (w : string) (c : ascii) :
  (w = EmptyString \/ is_word w) -> isspace c = false ->
  is_word (w ++ String c EmptyString).
Proof.
  intros Hw Hc. split.
  - destruct w; discriminate.
  - intros d Hd.
    assert (Hin : In d (list_ascii_of_string w) \/ d = c).
    { clear Hw. induction w as [| x w IH]; cbn in *.
      - destruct Hd as [<- | []]; auto.
      - destruct Hd as [<- | Hd]; auto. destruct (IH Hd); auto. }
    destruct Hin as [Hin | ->]; [| exact Hc].
    destruct Hw as [-> | [_ Hw]]; [destruct Hin | now apply Hw].
Qed.

Lemma split_from_words (w : option string) (s : string) :
  (forall x, w = Some x -> is_word x) ->
  Forall is_word (split_from w s).
Proof.
  revert w; induction s as [| c s IH]; intros w Hw; cbn [split_from].
  - destruct w as [x |]; constructor; auto.
  - destruct (isspace c) eqn:E.
    + destruct w as [x |].
      * constructor; [auto |]. apply IH. discriminate.
      * apply IH. discriminate.
    + destruct w as [x |]; apply IH; intros y Hy; injection Hy as <-.
      * apply is_word_snoc; auto.
      * apply (is_word_snoc EmptyString c); auto.
Qed.

(** The words of [s.split()] are not empty and hold no whitespace. *)
Lemma split_words (s : string) : Forall is_word (split s).
Proof. apply split_from_words. discriminate. Qed.

(** * Examples *)

(** The end-to-end scenario: one conversation of four turns is
    reconstructed, accepted and written. *)
Example scenario_run :
  main example_loads example_str 4 default_config ["R1"; "R2"; "R3"; "R4"]
  = (Some [[(user, "Please fix the bug");
            (assistant, "Let me look at the code. " ++ filler);
            (assistant, nl ++ "[TOOL: Edit]");
            (user, "Thanks")]%string], Ret tt).
Proof. vm_compute. reflexivity. Qed.

Example scenario_reconstruct :
  reconstruct_conversations example_str 4 default_config [(JStr "s1", scenario)]
  = Ret [scenario_conversation].
Proof. vm_compute. reflexivity. Qed.

(** C2 (counterexample): on [read_only] the extraction is not the bare
    marker but the marker after a newline. *)
Lemma tool_only_leading_newline :
  extract_content example_str read_only
  = Ret (Some (nl ++ "[TOOL: Read]")%string)
  /\ extract_content example_str read_only <> Ret (Some "[TOOL: Read]").
Proof. split; [reflexivity | discriminate]. Qed.

(** [tool_only_extract] on [read_only]. *)
Lemma tool_only_extract_witness :
  lookup read_only "type" = Some (JStr "assistant")
  /\ extract_content example_str read_only
     = Ret (Some (nl ++ "[TOOL: Read]")%string).
Proof.
  split; [reflexivity |].
  apply (tool_only_extract example_str read_only
           [("content",
             JArr [JObj [("type", JStr "tool_use"); ("name", JStr "Read")]])]
           [("type", JStr "tool_use"); ("name", JStr "Read")]);
    reflexivity.
Defined.

(** C3 (counterexample): [child "b"] comes before [child "c"] and both have
    the uuid of [parent_a] as parent, yet the walk goes from [parent_a] to
    [child "d"], which comes first, and never reaches [child "b"]. *)
Lemma earlier_sibling_followed :
  nth_error siblings 2 = Some (child "b")
  /\ nth_error siblings 3 = Some (child "c")
  /\ key_eq (parent_of (child "b")) (JStr "a") = true
  /\ key_eq (parent_of (child "c")) (JStr "a") = true
  /\ next_msg siblings 0 parent_a = Ret (Some (1, child "d"))
  /\ next_msg siblings 0 parent_a <> Ret (Some (2, child "b"))
  /\ map fst (visited example_str 4 siblings (Some (0, parent_a), []))
     = [0; 1].
Proof.
  repeat split; try reflexivity. discriminate.
Qed.

(** [first_child_followed] on a parent with two children. *)
Lemma first_child_followed_witness :
  next_msg two_children 0 parent_a = Ret (Some (1, child "b"))
  /\ ~ In 2 (map fst (visited example_str 3 two_children
                              (Some (0, parent_a), []))).
Proof.
  assert (Hfirst : forall j m, j < 1 ->
            nth_error two_children j = Some m ->
            key_eq (parent_of m) (JStr "a") = false).
  { intros [| j] m Hj Hm; [| lia]. injection Hm as <-. reflexivity. }
  destruct (first_child_followed example_str two_children
              parent_a (child "b") (child "c") (JStr "a") 0 1 2
              eq_refl eq_refl eq_refl eq_refl eq_refl eq_refl
              (le_n 2) (O_S 1) Hfirst) as (Hnext & _ & Hnever).
  split; [exact Hnext | exact (Hnever 3 [])].
Defined.

(** C4 (counterexample): [empty_parent] carries a [parentUuid], the empty
    string, and this is the uuid of [empty_uuid]; it is collected as a root
    all the same. *)
Lemma empty_parent_is_root :
  build_msg_map empty_link [] = Ret [JStr ""; JStr "y"]
  /\ find_roots [JStr ""; JStr "y"] empty_link 0 []
     = Ret [(0, empty_uuid); (1, empty_parent)]
  /\ lookup empty_parent "parentUuid" = Some (JStr "")
  /\ lookup empty_uuid "uuid" = Some (JStr "")
  /\ resolves (parent_of empty_parent) empty_link
  /\ ~ (lookup empty_parent "parentUuid" = None
        \/ ~ resolves (parent_of empty_parent) empty_link).
Proof.
  assert (Hres : resolves (parent_of empty_parent) empty_link).
  { exists empty_uuid, (JStr ""). repeat split. now left. }
  repeat split; try reflexivity; try exact Hres.
  intros [H | H]; [discriminate | exact (H Hres)].
Qed.

(** [root_classification] on the first record of the scenario. *)
Lemma root_classification_witness :
  build_msg_map scenario [] = Ret [JStr "r1"; JStr "r2"; JStr "r3"; JStr "r4"]
  /\ find_roots [JStr "r1"; JStr "r2"; JStr "r3"; JStr "r4"] scenario 0 []
     = Ret [(0, R1)]
  /\ (In (0, R1) [(0, R1)]
      <-> truthy (parent_of R1) = false \/ ~ resolves (parent_of R1) scenario).
Proof.
  split; [reflexivity |]. split; [reflexivity |].
  apply (root_classification scenario
           [JStr "r1"; JStr "r2"; JStr "r3"; JStr "r4"] [(0, R1)] 0 R1);
    reflexivity.
Defined.

(** [min_turns_gate] on the scenario: four turns pass the default gate. *)
Lemma min_turns_gate_witness :
  walk example_str 4 scenario (Some (0, R1), []) = Ret scenario_conversation
  /\ build_conversations example_str 4 default_config scenario [(0, R1)] []
     = Ret ([] ++ filter (kept default_config) [scenario_conversation]).
Proof.
  assert (Hw : walk example_str 4 scenario (Some (0, R1), [])
               = Ret scenario_conversation) by (vm_compute; reflexivity).
  split; [exact Hw |].
  destruct (min_turns_gate example_str 4 default_config scenario (0, R1) []
              scenario_conversation [] [] Hw (Forall2_nil _)) as [Hbuild _].
  exact Hbuild.
Defined.

(** [turns_have_content] on the scenario, and on a chain with a record
    that has no content. *)
Lemma turns_have_content_witness :
  reconstruct_conversations example_str 4 default_config
    [(JStr "s1", [parent_a; gap; after_gap])]
  = Ret []
  /\ reconstruct_conversations example_str 4 default_config
       [(JStr "s1", scenario)]
     = Ret [scenario_conversation]
  /\ (forall conv t, In conv [scenario_conversation] -> In t conv ->
                     content t <> EmptyString)
  /\ walk_body example_str [parent_a; gap; after_gap] (1, gap) []
     = Ret (Some (2, after_gap), []).
Proof.
  assert (Hr : reconstruct_conversations example_str 4 default_config
                 [(JStr "s1", scenario)] = Ret [scenario_conversation])
    by (vm_compute; reflexivity).
  split; [vm_compute; reflexivity |]. split; [exact Hr |].
  destruct (turns_have_content example_str 4 default_config
              [(JStr "s1", scenario)] [scenario_conversation] Hr)
    as [Hcontent Hgap].
  split; [exact Hcontent |].
  apply (Hgap [parent_a; gap; after_gap] (1, gap) [] (Some (2, after_gap)));
    [left |]; reflexivity.
Defined.

(** [malformed_line_aborts] on a file whose second line does not decode. *)
Lemma malformed_line_aborts_witness :
  In "not a record" ["R1"; "not a record"]
  /\ strip "not a record" <> EmptyString
  /\ ~ decodes_record example_loads "not a record"
  /\ main example_loads example_str 4 default_config ["R1"; "not a record"]
     = (None, Raise JSONDecodeError).
Proof.
  assert (Hin : In "not a record" ["R1"; "not a record"]) by (right; now left).
  assert (Hnb : strip "not a record" <> EmptyString) by (vm_compute; discriminate).
  assert (Hbad : ~ decodes_record example_loads "not a record")
    by (intros [msg H]; discriminate).
  split; [exact Hin |]. split; [exact Hnb |]. split; [exact Hbad |].
  destruct (malformed_line_aborts example_loads example_str 4 default_config
              ["R1"; "not a record"] "not a record" Hin Hnb Hbad)
    as [(e & He & Hmain) _].
  rewrite Hmain. f_equal. vm_compute in He. congruence.
Defined.

(** [extract_content_total] on a record with only a type and bare blocks. *)
Lemma extract_content_total_witness :
  well_shaped bare = true
  /\ extract_content example_str bare = Ret (Some (nl ++ "[TOOL: ]")%string)
  /\ extract_content example_str (remove_key "message" bare) = Ret None.
Proof.
  split; [reflexivity |]. split; [reflexivity |].
  apply (extract_content_total example_str bare). reflexivity.
Defined.

(** * Further properties *)

(** ** Grouping by session *)

Lemma key_eq_refl (v : json) : hashable v = true -> key_eq v v = true.
Proof.
  destruct v; simpl; try discriminate; intros _; auto.
  - destruct b; reflexivity.
  - apply Z.eqb_refl.
  - apply String.eqb_refl.
Qed.

Lemma key_eq_false_trans (sid k k' : json) :
  key_eq sid k = true -> key_eq k k' = false -> key_eq sid k' = false.
Proof.
  intros H1 H2. destruct (key_eq sid k') eqn:E; [| reflexivity].
  rewrite <- H2. symmetry. apply key_eq_trans with sid; [| exact E].
  now rewrite key_eq_sym.
Qed.

Lemma sessions_append_hit (sessions : sessions_t) (sid : json) (msg : dict) :
  ForallOrdPairs (fun a b => key_eq (fst a) (fst b) = false) sessions ->
  (exists kl, In kl sessions /\ key_eq sid (fst kl) = true) ->
  sessions_append sessions sid msg
  = map (fun kl => if key_eq sid (fst kl)
                   then (fst kl, snd kl ++ [msg]) else kl) sessions.
Proof.
  induction 1 as [| [k l] rest Hk Hrest IH]; intros (kl & Hin & Hkl).
  - destruct Hin.
  - cbn [sessions_append map fst snd].
    destruct (key_eq sid k) eqn:E.
    + f_equal. symmetry. rewrite <- (map_id rest) at 2.
      apply map_ext_in. intros kl' Hin'.
      rewrite Forall_forall in Hk. specialize (Hk kl' Hin'). cbn [fst] in Hk.
      now rewrite (key_eq_false_trans sid k (fst kl') E Hk).
    + f_equal. apply IH. exists kl. split; [| exact Hkl].
      destruct Hin as [<- | Hin]; [cbn [fst] in Hkl; congruence | exact Hin].
Qed.

Lemma sessions_append_miss (sessions : sessions_t) (sid : json) (msg : dict) :
  (forall kl, In kl sessions -> key_eq sid (fst kl) = false) ->
  sessions_append sessions sid msg = sessions ++ [(sid, [msg])].
Proof.
  induction sessions as [| [k l] rest IH]; intros H; cbn [sessions_append app].
  - reflexivity.
  - pose proof (H (k, l) (or_introl eq_refl)) as Hk. cbn [fst] in Hk.
    rewrite Hk. f_equal. apply IH. intros kl Hin. apply H. now right.
Qed.

Lemma bucket_snoc (k : json) (records : list dict) (msg : dict) :
  bucket k (records ++ [msg])
  = bucket k records ++ (if key_eq (session_of msg) k then [msg] else []).
Proof. unfold bucket. rewrite filter_app. reflexivity. Qed.

Lemma ForallOrdPairs_map_fst (sessions : sessions_t)
    (f : json * list dict -> json * list dict) :
  (forall kl, fst (f kl) = fst kl) ->
  ForallOrdPairs (fun a b => key_eq (fst a) (fst b) = false) sessions ->
  ForallOrdPairs (fun a b => key_eq (fst a) (fst b) = false) (map f sessions).
Proof.
  intros Hf. induction 1 as [| kl rest Hk Hrest IH]; cbn [map]; constructor.
  - rewrite Forall_forall in *. intros x Hx.
    apply in_map_iff in Hx as (y & <- & Hy). rewrite !Hf. now apply Hk.
  - exact IH.
Qed.

Lemma ForallOrdPairs_snoc (sessions : sessions_t) (sid : json)
    (l : list dict) :
  ForallOrdPairs (fun a b => key_eq (fst a) (fst b) = false) sessions ->
  (forall kl, In kl sessions -> key_eq sid (fst kl) = false) ->
  ForallOrdPairs (fun a b => key_eq (fst a) (fst b) = false)
                 (sessions ++ [(sid, l)]).
Proof.
  induction 1 as [| kl rest Hk Hrest IH]; intros Hmiss; cbn [app].
  - constructor; constructor.
  - constructor.
    + apply Forall_app. split; [exact Hk |].
      constructor; [| constructor]. cbn [fst].
      rewrite key_eq_sym. apply Hmiss. now left.
    + apply IH. intros x Hx. apply Hmiss. now right.
Qed.

Lemma grouped_append (records : list dict) (sessions : sessions_t)
    (msg : dict) :
  grouped records sessions -> hashable (session_of msg) = true ->
  grouped (records ++ [msg])
          (sessions_append sessions (session_of msg) msg).
Proof.
  intros (G1 & G2 & G3) Hh. set (sid := session_of msg) in *.
  destruct (existsb (fun kl => key_eq sid (fst kl)) sessions) eqn:E.
  - apply existsb_exists in E.
    rewrite (sessions_append_hit sessions sid msg G2 E).
    split; [| split].
    + intros k l Hin. apply in_map_iff in Hin as ([k0 l0] & Hf & Hin).
      destruct (G1 k0 l0 Hin) as (-> & Hne & Hk0). cbn [fst snd] in Hf.
      rewrite bucket_snoc. fold sid.
      destruct (key_eq sid k0) eqn:Ek; injection Hf as <- <-;
        rewrite Ek.
      * repeat split; auto. now destruct (bucket k0 records).
      * rewrite app_nil_r. auto.
    + apply ForallOrdPairs_map_fst; [| exact G2].
      intros kl. now destruct (key_eq sid (fst kl)).
    + intros m Hm. apply in_app_iff in Hm as [Hm | [<- | []]].
      * destruct (G3 m Hm) as (k & l & Hin & Hk).
        destruct (key_eq sid k) eqn:Ek.
        -- exists k, (l ++ [msg]). split; [| exact Hk].
           apply in_map_iff. exists (k, l). split; [| exact Hin].
           cbn [fst snd]. now rewrite Ek.
        -- exists k, l. split; [| exact Hk].
           apply in_map_iff. exists (k, l). split; [| exact Hin].
           cbn [fst snd]. now rewrite Ek.
      * destruct E as ([k l] & Hin & Hk). cbn [fst] in Hk.
        exists k, (l ++ [msg]). split; [| exact Hk].
        apply in_map_iff. exists (k, l). split; [| exact Hin].
        cbn [fst snd]. now rewrite Hk.
  - assert (Hmiss : forall kl, In kl sessions -> key_eq sid (fst kl) = false).
    { intros kl Hin. destruct (key_eq sid (fst kl)) eqn:Ek; [| reflexivity].
      rewrite <- E. symmetry. apply existsb_exists. eauto. }
    rewrite (sessions_append_miss sessions sid msg Hmiss).
    split; [| split].
    + intros k l Hin. rewrite bucket_snoc. fold sid.
      apply in_app_iff in Hin as [Hin | [Hin | []]].
      * destruct (G1 k l Hin) as (-> & Hne & Hk).
        pose proof (Hmiss _ Hin) as Hm. cbn [fst] in Hm.
        rewrite Hm, app_nil_r. auto.
      * injection Hin as <- <-. rewrite (key_eq_refl sid Hh).
        assert (Hempty : bucket sid records = []).
        { assert (HF : Forall (fun m => key_eq (session_of m) sid = false)
                              records).
          { apply Forall_forall. intros m Hm.
            destruct (G3 m Hm) as (k & l & Hin & Hk).
            destruct (key_eq (session_of m) sid) eqn:Es; [| reflexivity].
            pose proof (Hmiss _ Hin) as Hf. cbn [fst] in Hf.
            rewrite <- Hf. symmetry.
            apply key_eq_trans with (session_of m); [| exact Hk].
            now rewrite key_eq_sym. }
          unfold bucket. clear - HF.
          induction HF as [| m l Hm HF IH]; cbn [filter]; [reflexivity |].
          now rewrite Hm. }
        rewrite Hempty. cbn [app]. repeat split; auto. discriminate.
    + now apply ForallOrdPairs_snoc.
    + intros m Hm. apply in_app_iff in Hm as [Hm | [<- | []]].
      * destruct (G3 m Hm) as (k & l & Hin & Hk).
        exists k, l. split; [| exact Hk]. apply in_app_iff. now left.
      * exists sid, [msg]. split; [| now apply key_eq_refl].
        apply in_app_iff. right. now left.
Qed.


Section LoadingMore.

Variable json_loads : string -> option json.
Variable py_str : json -> string.

Lemma load_lines_Ret (lines : list string) (sessions sessions' : sessions_t) :
  load_lines json_loads lines sessions = Ret sessions'
  <-> forallb (line_ok json_loads) lines = true
      /\ sessions' = append_all (records_of json_loads lines) sessions.
Proof.
  unfold append_all.
  revert sessions; induction lines as [| line lines IH]; intros sessions;
    cbn [load_lines forallb records_of flat_map].
  - cbn [fold_left]. split.
    + intros H; injection H as <-. auto.
    + intros [_ ->]. reflexivity.
  - fold (records_of json_loads lines). unfold line_ok at 1.
    destruct (str_truthy (strip line)).
    + destruct (json_loads line) as [v |]; cbn [andb app];
        [| split; [discriminate | intros [H _]; discriminate]].
      destruct v; cbn [attr_get bind andb app];
        try (split; [discriminate | intros [H _]; discriminate]).
      fold (session_of o). destruct (hashable (session_of o)); cbn [andb].
      * rewrite IH. cbn [fold_left]. reflexivity.
      * split; [discriminate | intros [H _]; discriminate].
    + cbn [andb app]. apply IH.
Qed.

Lemma records_of_hashable (lines : list string) :
  forallb (line_ok json_loads) lines = true ->
  Forall (fun msg => hashable (session_of msg) = true)
         (records_of json_loads lines).
Proof.
  induction lines as [| line lines IH]; cbn [forallb records_of flat_map];
    [constructor |].
  fold (records_of json_loads lines). unfold line_ok at 1.
  intros H. apply andb_true_iff in H as [Hl H].
  apply Forall_app. split; [| now apply IH].
  destruct (str_truthy (strip line)); [| constructor].
  destruct (json_loads line) as [[] |]; try constructor; auto.
Qed.

Lemma grouped_append_all (records done : list dict) (sessions : sessions_t) :
  grouped done sessions ->
  Forall (fun msg => hashable (session_of msg) = true) records ->
  grouped (done ++ records) (append_all records sessions).
Proof.
  unfold append_all.
  revert done sessions; induction records as [| msg records IH];
    intros done sessions Hg Hh; cbn [fold_left].
  - now rewrite app_nil_r.
  - inversion Hh as [| ? ? Hmsg Hrest]; subst.
    replace (done ++ msg :: records) with ((done ++ [msg]) ++ records)
      by (rewrite <- app_assoc; reflexivity).
    apply IH; [| exact Hrest]. now apply grouped_append.
Qed.

Lemma grouped_nil : grouped [] [].
Proof.
  split; [| split].
  - intros k l [].
  - constructor.
  - intros msg [].
Qed.

(** X1: the sessions that [load_raw_data] returns group the decoded records
    by [sessionId] (["unknown"] when it is missing): each bucket holds
    exactly the records of its key in the order of the lines and is not
    empty, no two buckets have equal keys, and every record is in a
    bucket. *)
Theorem load_groups_by_session (lines : list string) (sessions : sessions_t) :
  load_raw_data json_loads lines = Ret sessions ->
  grouped (records_of json_loads lines) sessions
  /\ (forall msg, In msg (records_of json_loads lines) ->
        exists k l, In (k, l) sessions /\ In msg l)
  /\ (forall k l msg, In (k, l) sessions -> In msg l ->
        In msg (records_of json_loads lines)
        /\ key_eq (session_of msg) k = true).
Proof.
  unfold load_raw_data. intros H.
  apply load_lines_Ret in H as [Hok ->].
  pose proof (grouped_append_all (records_of json_loads lines) [] []
                grouped_nil (records_of_hashable lines Hok)) as Hg.
  cbn [app] in Hg. split; [exact Hg |].
  destruct Hg as (G1 & G2 & G3). split.
  - intros msg Hmsg. destruct (G3 msg Hmsg) as (k & l & Hin & Hk).
    exists k, l. split; [exact Hin |].
    destruct (G1 k l Hin) as (-> & _ & _).
    unfold bucket. apply filter_In. auto.
  - intros k l msg Hin Hmsg. destruct (G1 k l Hin) as (-> & _ & _).
    unfold bucket in Hmsg. now apply filter_In in Hmsg.
Qed.

(** X2: [load_raw_data] returns exactly when every line is blank or
    decodes to an object whose session id is hashable; it then returns the
    records appended one by one to their sessions. *)
Theorem load_succeeds_iff (lines : list string) :
  ((exists sessions, load_raw_data json_loads lines = Ret sessions)
   <-> forallb (line_ok json_loads) lines = true)
  /\ (forall sessions, load_raw_data json_loads lines = Ret sessions ->
        sessions = append_all (records_of json_loads lines) []).
Proof.
  unfold load_raw_data. split; [split |].
  - intros [sessions H]. now apply load_lines_Ret in H.
  - intros H. eexists. apply load_lines_Ret. split; [exact H | reflexivity].
  - intros sessions H. now apply load_lines_Ret in H.
Qed.

Lemma load_lines_prefix (pre post : list string) (sessions : sessions_t) :
  forallb (line_ok json_loads) pre = true ->
  load_lines json_loads (pre ++ post) sessions
  = load_lines json_loads post
      (append_all (records_of json_loads pre) sessions).
Proof.
  unfold append_all.
  revert sessions; induction pre as [| line pre IH]; intros sessions H;
    cbn [app load_lines forallb records_of flat_map fold_left] in *.
  - reflexivity.
  - fold (records_of json_loads pre). apply andb_true_iff in H as [Hl H].
    unfold line_ok in Hl.
    destruct (str_truthy (strip line)); [| now apply IH].
    destruct (json_loads line) as [[] |]; try discriminate.
    cbn [attr_get bind app fold_left]. fold (session_of o). rewrite Hl.
    now apply IH.
Qed.

(** X3: the exception of [load_raw_data] is that of the first line that is
    not in order: [JSONDecodeError] when it does not decode,
    [AttributeError] when it decodes to something else than an object,
    [TypeError] when the session id of its object is not hashable. *)
Theorem load_first_error (pre post : list string) (line : string) :
  forallb (line_ok json_loads) pre = true ->
  strip line <> EmptyString ->
  (json_loads line = None ->
   load_raw_data json_loads (pre ++ line :: post) = Raise JSONDecodeError)
  /\ (forall v, json_loads line = Some v ->
        (forall msg, v <> JObj msg) ->
        load_raw_data json_loads (pre ++ line :: post) = Raise AttributeError)
  /\ (forall msg, json_loads line = Some (JObj msg) ->
        hashable (session_of msg) = false ->
        load_raw_data json_loads (pre ++ line :: post) = Raise TypeError).
Proof.
  intros Hpre Hnb. unfold load_raw_data.
  rewrite (load_lines_prefix pre (line :: post) [] Hpre).
  cbn [load_lines].
  destruct (strip line) as [| c s] eqn:Es; [congruence |].
  cbn [str_truthy]. split; [| split].
  - intros ->. reflexivity.
  - intros v -> Hv. destruct v; try reflexivity.
    exfalso. now apply (Hv o).
  - intros msg -> Hh. cbn [attr_get bind]. fold (session_of msg).
    now rewrite Hh.
Qed.

Lemma reconstruct_sessions_kept (fuel : nat) (cfg : config)
    (sessions : sessions_t) (acc out : list conversation) :
  reconstruct_sessions py_str fuel cfg sessions acc = Ret out ->
  Forall (fun conv => kept cfg conv = true) acc ->
  Forall (fun conv => kept cfg conv = true) out.
Proof.
  revert acc; induction sessions as [| [sid messages] sessions IH];
    intros acc H Hacc; cbn [reconstruct_sessions] in H.
  - now injection H as <-.
  - apply bind_Ret_inv in H as (msg_map & _ & H).
    apply bind_Ret_inv in H as (roots & _ & H).
    apply bind_Ret_inv in H as (acc' & Hb & H).
    apply (IH acc' H).
    apply build_conversations_filter in Hb as (walks & _ & ->).
    apply Forall_app. split; [exact Hacc |].
    apply Forall_forall. intros conv Hin. now apply filter_In in Hin.
Qed.

Lemma main_Some_inv (fuel : nat) (cfg : config) (lines : list string)
    (recs : list training_record) (r : res unit) :
  main json_loads py_str fuel cfg lines = (Some recs, r) ->
  exists sessions convs,
    load_raw_data json_loads lines = Ret sessions
    /\ reconstruct_conversations py_str fuel cfg sessions = Ret convs
    /\ recs = format_for_training (filter_quality cfg convs).
Proof.
  unfold main.
  destruct (load_raw_data json_loads lines) as [sessions | e |] eqn:El;
    try discriminate.
  destruct (reconstruct_conversations py_str fuel cfg sessions)
    as [convs | e |] eqn:Er; try discriminate.
  unfold save_training_data. intros H. injection H as H _.
  exists sessions, convs. split; [reflexivity |]. split; [exact Er |].
  now symmetry.
Qed.

(** X4: every record that [main] writes comes from a conversation with at
    least [min_turns] turns and at least [min_tokens] words; it holds as
    many messages as the conversation has turns, one of them from the
    assistant, and no message has empty content. *)
Theorem written_records (fuel : nat) (cfg : config) (lines : list string)
    (recs : list training_record) (r : res unit) (rec : training_record) :
  main json_loads py_str fuel cfg lines = (Some recs, r) ->
  In rec recs ->
  (min_turns cfg <= Z.of_nat (List.length rec))%Z
  /\ (exists c, In (assistant, c) rec)
  /\ (forall ro c, In (ro, c) rec -> c <> EmptyString)
  /\ (min_tokens cfg
      <= Z.of_nat (list_sum (map (fun m => word_count (snd m)) rec)))%Z.
Proof.
  intros Hmain Hrec.
  apply main_Some_inv in Hmain as (sessions & convs & _ & Hrc & ->).
  unfold format_for_training in Hrec.
  apply in_map_iff in Hrec as (conv & <- & Hconv).
  rewrite filter_quality_filter in Hconv.
  apply filter_In in Hconv as [Hin Hacc].
  pose proof (reconstruct_sessions_kept fuel cfg sessions [] convs Hrc
                (Forall_nil _)) as Hkept.
  pose proof (reconstruct_sessions_nonempty py_str fuel cfg sessions []
                convs Hrc (Forall_nil _)) as Hne.
  rewrite Forall_forall in Hkept, Hne.
  specialize (Hkept conv Hin). specialize (Hne conv Hin).
  apply accepts_Accepted in Hacc as [Htok Hsig].
  split; [| split; [| split]].
  - rewrite length_map. unfold kept in Hkept. now apply Z.leb_le.
  - assert (Ht : exists t, In t conv /\ turn_role t = assistant).
    { destruct Hsig as [(t & Ht & Hr & _) | (t & Ht & Hr & _)]; eauto. }
    destruct Ht as (t & Ht & Hr). exists (content t).
    apply in_map_iff. exists t. split; [now rewrite Hr | exact Ht].
  - intros ro c Hin'. apply in_map_iff in Hin' as (t & Ht & Hin').
    injection Ht as _ <-. unfold nonempty_turns in Hne.
    rewrite Forall_forall in Hne. now apply Hne.
  - unfold total_words in Htok. rewrite map_map. exact Htok.
Qed.


End LoadingMore.

(** [load_groups_by_session] on the four lines of the scenario. *)
Lemma load_groups_by_session_witness :
  load_raw_data example_loads ["R1"; "R2"; "R3"; "R4"]
  = Ret [(JStr "s1", scenario)]
  /\ grouped (records_of example_loads ["R1"; "R2"; "R3"; "R4"])
             [(JStr "s1", scenario)].
Proof.
  assert (H : load_raw_data example_loads ["R1"; "R2"; "R3"; "R4"]
              = Ret [(JStr "s1", scenario)]) by (vm_compute; reflexivity).
  split; [exact H |].
  destruct (load_groups_by_session example_loads _ _ H) as [Hg _].
  exact Hg.
Defined.

(** [load_first_error] on a file whose second line does not decode. *)
Lemma load_first_error_witness :
  forallb (line_ok example_loads) ["R1"] = true
  /\ strip "not a record" <> EmptyString
  /\ load_raw_data example_loads (["R1"] ++ "not a record" :: ["R2"])
     = Raise JSONDecodeError.
Proof.
  assert (Hpre : forallb (line_ok example_loads) ["R1"] = true)
    by (vm_compute; reflexivity).
  assert (Hnb : strip "not a record" <> EmptyString)
    by (vm_compute; discriminate).
  split; [exact Hpre |]. split; [exact Hnb |].
  destruct (load_first_error example_loads ["R1"] ["R2"] "not a record"
              Hpre Hnb) as [H _].
  apply H. reflexivity.
Defined.

(** [written_records] on the scenario. *)
Lemma written_records_witness :
  main example_loads example_str 4 default_config ["R1"; "R2"; "R3"; "R4"]
  = (Some (format_for_training [scenario_conversation]), Ret tt)
  /\ (3 <= Z.of_nat (List.length
                       (map (fun msg => (turn_role msg, content msg))
                            scenario_conversation)))%Z.
Proof.
  assert (H : main example_loads example_str 4 default_config
                ["R1"; "R2"; "R3"; "R4"]
              = (Some (format_for_training [scenario_conversation]), Ret tt))
    by (vm_compute; reflexivity).
  split; [exact H |].
  destruct (written_records example_loads example_str 4 default_config _ _ _
              (map (fun msg => (turn_role msg, content msg))
                   scenario_conversation) H (or_introl eq_refl))
    as [Hlen _].
  exact Hlen.
Defined.



(** ** Conversations and visited records *)

Section WalksMore.

Variable py_str : json -> string.

Lemma walk_body_turn (messages : list dict) (current : ref)
    (conv : conversation) (st' : state) :
  walk_body py_str messages current conv = Ret st' ->
  snd st' = conv ++ turns_of py_str [current].
Proof.
  unfold walk_body, turns_of, turn_of. cbn [flat_map]. intros H.
  apply bind_Ret_inv in H as (c & Hc & H).
  apply bind_Ret_inv in H as (conv' & Hconv & H).
  apply bind_Ret_inv in H as (next & _ & H).
  injection H as <-. cbn [snd]. rewrite Hc.
  destruct c as [s |]; [| injection Hconv as <-; now rewrite app_nil_r].
  destruct (str_truthy s); [| injection Hconv as <-; now rewrite app_nil_r].
  unfold getitem in Hconv.
  destruct (lookup (snd current) "type") as [ty |]; [| discriminate].
  destruct (lookup (snd current) "uuid") as [u |]; [| discriminate].
  cbn [bind] in Hconv. injection Hconv as <-. now rewrite app_nil_r.
Qed.

Lemma walk_turns_from (n : nat) (messages : list dict) (st : state)
    (conv : conversation) :
  walk py_str n messages st = Ret conv ->
  conv = snd st ++ turns_of py_str (visited py_str n messages st).
Proof.
  revert st; induction n as [| n IH]; intros st H; cbn [walk visited] in *.
  - destruct (loop_cond st); [discriminate |]. injection H as <-.
    cbn. now rewrite app_nil_r.
  - destruct (loop_cond st) as [cur |].
    + apply bind_Ret_inv in H as (st' & Hb & H). rewrite Hb.
      rewrite (IH st' H), (walk_body_turn _ _ _ _ Hb), <- app_assoc.
      unfold turns_of. cbn [flat_map]. now rewrite app_nil_r.
    + injection H as <-. cbn. now rewrite app_nil_r.
Qed.

(** X6: the conversation of a completed walk is made of the turns of the
    visited records, in the order of the visit: a record gives one turn,
    with its uuid, timestamp and content and the role [user] exactly when
    its type is ["user"], or no turn when it has no content. *)
Theorem walk_turns (n : nat) (messages : list dict) (root : ref)
    (conv : conversation) :
  walk py_str n messages (Some root, []) = Ret conv ->
  conv = turns_of py_str (visited py_str n messages (Some root, []))
  /\ List.length conv
     <= List.length (visited py_str n messages (Some root, []))
  /\ (forall t, In t conv ->
        exists r, In r (visited py_str n messages (Some root, []))
                  /\ turn_of py_str (snd r) = Some t
                  /\ lookup (snd r) "uuid" = Some (uuid t)
                  /\ extract_content py_str (snd r) = Ret (Some (content t))).
Proof.
  intros H. apply walk_turns_from in H. cbn [snd app] in H.
  split; [exact H |].
  set (l := visited py_str n messages (Some root, [])) in *. clearbody l.
  subst conv. split.
  - induction l as [| r l IH]; cbn [turns_of flat_map List.length];
      [lia |].
    fold (turns_of py_str l). rewrite length_app.
    destruct (turn_of py_str (snd r)); cbn [List.length]; lia.
  - intros t Ht. unfold turns_of in Ht.
    apply in_flat_map in Ht as (r & Hr & Ht).
    exists r. split; [exact Hr |].
    destruct (turn_of py_str (snd r)) as [t' |] eqn:E; [| destruct Ht].
    destruct Ht as [<- | []]. split; [reflexivity |].
    unfold turn_of in E.
    destruct (extract_content py_str (snd r)) as [[s |] | |];
      try discriminate.
    destruct (str_truthy s); [| discriminate].
    destruct (lookup (snd r) "type"); [| discriminate].
    destruct (lookup (snd r) "uuid"); [| discriminate].
    injection E as <-. auto.
Qed.

Lemma chain_nth (messages : list dict) (l : list ref) :
  chain messages l ->
  forall i x y, nth_error l i = Some x -> nth_error l (S i) = Some y ->
                next_msg messages 0 (snd x) = Ret (Some y).
Proof.
  induction 1 as [| x | x y l Hxy Hc IH]; intros i a b Ha Hb.
  - destruct i; discriminate.
  - destruct i as [| i]; cbn in Hb; [discriminate |].
    destruct i; discriminate.
  - destruct i as [| i]; cbn in Ha, Hb.
    + congruence.
    + now apply (IH i).
Qed.

(** X7: the records that a walk visits follow the parent links: each one
    is a record of the session, and each one after the first is the first
    record of the session, in input order, whose [parentUuid] equals the
    uuid of the record visited before it. *)
Theorem visited_follow_links (n : nat) (messages : list dict) (root : ref)
    (conv : conversation) :
  valid_ref messages root ->
  Forall (valid_ref messages) (visited py_str n messages (Some root, conv))
  /\ (forall i x y,
        nth_error (visited py_str n messages (Some root, conv)) i = Some x ->
        nth_error (visited py_str n messages (Some root, conv)) (S i)
        = Some y ->
        exists u, lookup (snd x) "uuid" = Some u
                  /\ key_eq (parent_of (snd y)) u = true
                  /\ first_child u messages 0 = Some y).
Proof.
  intros Hroot.
  pose proof (visited_chain py_str n messages (Some root, conv)) as Hc.
  split.
  - destruct (visited py_str n messages (Some root, conv)) as [| x l] eqn:E;
      [constructor |].
    apply visited_head in E. cbn [fst] in E. injection E as <-.
    now apply chain_valid.
  - intros i x y Hx Hy.
    pose proof (chain_nth messages _ Hc i x y Hx Hy) as Hn.
    apply next_msg_Some_inv in Hn as (u & Hu & Hf).
    exists u. split; [exact Hu |]. split; [| exact Hf].
    now apply first_child_Some in Hf as (_ & _ & Hk & _).
Qed.

End WalksMore.

(** ** Roots and checks of a session *)

Lemma find_roots_filter (msg_map : list json) (messages : list dict)
    (i : nat) (acc roots : list ref) :
  find_roots msg_map messages i acc = Ret roots ->
  roots = acc ++ filter (fun r => is_root msg_map (snd r))
                        (combine (seq i (List.length messages)) messages)
  /\ Forall (fun msg => truthy (parent_of msg) = true ->
                        hashable (parent_of msg) = true) messages.
Proof.
  revert i acc; induction messages as [| msg rest IH]; intros i acc H;
    cbn [find_roots List.length seq combine filter snd] in *.
  - injection H as <-. split; [now rewrite app_nil_r | constructor].
  - fold (parent_of msg) in H. unfold is_root at 1.
    destruct (truthy (parent_of msg)) eqn:Et; cbn [negb orb] in *.
    + apply bind_Ret_inv in H as (found & Hm & H). unfold member in Hm.
      destruct (hashable (parent_of msg)) eqn:Eh; [| discriminate].
      injection Hm as <-.
      destruct (existsb (key_eq (parent_of msg)) msg_map); cbn [negb] in *;
        apply IH in H as [-> HF].
      * split; [reflexivity | constructor; auto].
      * split; [now rewrite <- app_assoc | constructor; auto].
    + apply IH in H as [-> HF].
      split; [now rewrite <- app_assoc |]. constructor; [congruence | auto].
Qed.

(** X8: the roots of a session are its records that pass the root test,
    with their positions and in input order; there are not more roots than
    records. *)
Theorem roots_in_order (messages : list dict) (msg_map : list json)
    (roots : list ref) :
  find_roots msg_map messages 0 [] = Ret roots ->
  roots = filter (fun r => is_root msg_map (snd r)) (indexed messages)
  /\ List.length roots <= List.length messages
  /\ (forall r, In r roots -> valid_ref messages r)
  /\ (forall i j x y, i < j -> nth_error roots i = Some x ->
                      nth_error roots j = Some y -> fst x < fst y).
Proof.
  intros H. apply find_roots_filter in H as [-> _]. cbn [app].
  fold (indexed messages).
  assert (Hvalid : forall r, In r (indexed messages) -> valid_ref messages r).
  { unfold indexed, valid_ref. intros [i m] Hin. cbn [fst snd].
    assert (G : forall (l : list dict) (k : nat),
               In (i, m) (combine (seq k (List.length l)) l) ->
               k <= i /\ nth_error l (i - k) = Some m).
    { induction l as [| a l IHl]; intros k Hk; cbn in Hk; [destruct Hk |].
      destruct Hk as [Hk | Hk].
      - injection Hk as -> ->. rewrite Nat.sub_diag. auto.
      - apply IHl in Hk as [Hle Hn]. split; [lia |].
        replace (i - k) with (S (i - S k)) by lia. exact Hn. }
    apply G in Hin as [_ Hn]. now rewrite Nat.sub_0_r in Hn. }
  split; [reflexivity |]. split; [| split].
  - etransitivity; [apply filter_length_le |].
    unfold indexed. rewrite length_combine, length_seq. lia.
  - intros r Hr. apply filter_In in Hr as [Hr _]. now apply Hvalid.
  - unfold indexed.
    assert (G : forall (l : list dict) (k i j : nat) (x y : ref),
               i < j ->
               nth_error (filter (fun r => is_root msg_map (snd r))
                                 (combine (seq k (List.length l)) l)) i
               = Some x ->
               nth_error (filter (fun r => is_root msg_map (snd r))
                                 (combine (seq k (List.length l)) l)) j
               = Some y ->
               k <= fst x /\ fst x < fst y).
    { induction l as [| a l IHl]; intros k i j x y Hij Hx Hy;
        cbn [List.length seq combine filter snd] in Hx, Hy.
      - destruct i; discriminate.
      - destruct (is_root msg_map a).
        + destruct j as [| j]; [lia |]. cbn in Hy.
          destruct i as [| i]; cbn in Hx.
          * injection Hx as <-. cbn [fst]. split; [lia |].
            apply nth_error_In in Hy. apply filter_In in Hy as [Hy _].
            destruct y as [p q]. apply in_combine_l in Hy.
            apply in_seq in Hy. cbn [fst]. lia.
          * destruct (IHl (S k) i j x y ltac:(lia) Hx Hy). lia.
        + destruct (IHl (S k) i j x y Hij Hx Hy). lia. }
    intros i j x y Hij Hx Hy. now destruct (G messages 0 i j x y Hij Hx Hy).
Qed.


Section SessionsMore.

Variable py_str : json -> string.

Lemma Forall2_In_l {A B : Type} (P : A -> B -> Prop) (l : list A)
    (l' : list B) :
  Forall2 P l l' -> forall x, In x l -> exists y, In y l' /\ P x y.
Proof.
  induction 1 as [| a b l l' Hab HF IH]; intros x Hx; [destruct Hx |].
  destruct Hx as [<- | Hx].
  - exists b. split; [now left | exact Hab].
  - destruct (IH x Hx) as (y & Hy & Hxy). exists y. split; [now right | auto].
Qed.

Lemma reconstruct_sessions_indexable (fuel : nat) (cfg : config)
    (sessions : sessions_t) (acc out : list conversation) :
  reconstruct_sessions py_str fuel cfg sessions acc = Ret out ->
  forall sid messages msg,
    In (sid, messages) sessions -> In msg messages -> indexable msg.
Proof.
  revert acc; induction sessions as [| [sid0 messages0] sessions IH];
    intros acc H sid messages msg Hs Hm; [destruct Hs |].
  cbn [reconstruct_sessions] in H.
  apply bind_Ret_inv in H as (msg_map & Hmap & H).
  apply bind_Ret_inv in H as (roots & Hroots & H).
  apply bind_Ret_inv in H as (acc' & _ & H).
  destruct Hs as [Hs | Hs]; [| now apply (IH acc' H sid messages)].
  injection Hs as -> ->.
  apply build_msg_map_keys in Hmap as (us & _ & HF).
  apply find_roots_filter in Hroots as [_ HP].
  split.
  - destruct (Forall2_In_l _ _ _ HF msg Hm) as (u & _ & Hu & Hh). eauto.
  - rewrite Forall_forall in HP. now apply HP.
Qed.

(** X9: [reconstruct_conversations] returns conversations only when every
    record of every session has a hashable uuid and every truthy
    [parentUuid] is hashable, whether a walk reaches the record or not: a
    single record outside this shape leaves the whole run without
    result. *)
Theorem reconstruct_needs_indexable (fuel : nat) (cfg : config)
    (sessions : sessions_t) (convs : list conversation) :
  reconstruct_conversations py_str fuel cfg sessions = Ret convs ->
  forall sid messages msg,
    In (sid, messages) sessions -> In msg messages -> indexable msg.
Proof. apply reconstruct_sessions_indexable. Qed.

Lemma build_conversations_length (fuel : nat) (cfg : config)
    (messages : list dict) (roots : list ref) (acc out : list conversation) :
  build_conversations py_str fuel cfg messages roots acc = Ret out ->
  List.length out <= List.length acc + List.length roots.
Proof.
  intros H. apply build_conversations_filter in H as (walks & HF & ->).
  unfold completed_walks in HF. apply Forall2_length in HF.
  rewrite length_app, HF.
  pose proof (filter_length_le (kept cfg) walks). lia.
Qed.

Lemma reconstruct_sessions_length (fuel : nat) (cfg : config)
    (sessions : sessions_t) (acc out : list conversation) :
  reconstruct_sessions py_str fuel cfg sessions acc = Ret out ->
  List.length out <= List.length acc + record_count sessions.
Proof.
  unfold record_count, list_sum.
  revert acc; induction sessions as [| [sid messages] sessions IH];
    intros acc H; cbn [reconstruct_sessions map fold_right snd] in *.
  - injection H as <-. lia.
  - apply bind_Ret_inv in H as (msg_map & _ & H).
    apply bind_Ret_inv in H as (roots & Hroots & H).
    apply bind_Ret_inv in H as (acc' & Hb & H).
    apply IH in H. apply build_conversations_length in Hb.
    apply find_roots_filter in Hroots as [-> _]. cbn [app] in Hb.
    pose proof (filter_length_le (fun r => is_root msg_map (snd r))
                  (combine (seq 0 (List.length messages)) messages)) as Hf.
    rewrite length_combine, length_seq, Nat.min_id in Hf.
    assert (Hr : List.length acc'
                 <= List.length acc + List.length messages).
    { eapply Nat.le_trans; [exact Hb |]. apply Nat.add_le_mono_l. exact Hf. }
    lia.
Qed.

(** X10: each root gives at most one conversation, so
    [reconstruct_conversations] returns at most as many conversations as
    the sessions have records. *)
Theorem conversation_count (fuel : nat) (cfg : config)
    (sessions : sessions_t) (convs : list conversation) :
  reconstruct_conversations py_str fuel cfg sessions = Ret convs ->
  List.length convs <= record_count sessions.
Proof.
  intros H. apply reconstruct_sessions_length in H.
  cbn [List.length] in H. lia.
Qed.

Lemma truthy_uuids_no_falsy_link (messages : list dict) :
  truthy_uuids messages -> no_falsy_link messages.
Proof.
  intros Ht p _ (m & u & Hm & Hu & Hk).
  rewrite (key_eq_truthy _ _ Hk). now apply (Ht m u).
Qed.

(** X11: when in every session no two records have equal uuids and every
    uuid is truthy (a non-empty string, for instance), reconstruction ends
    once the fuel covers the longest session, and more fuel does not change
    its outcome. *)
Theorem reconstruction_ends (fuel : nat) (cfg : config)
    (sessions : sessions_t) :
  (forall sid messages, In (sid, messages) sessions ->
     distinct_uuids messages /\ truthy_uuids messages
     /\ List.length messages <= fuel) ->
  reconstruct_conversations py_str fuel cfg sessions <> OutOfFuel
  /\ (forall fuel', fuel <= fuel' ->
        reconstruct_conversations py_str fuel' cfg sessions
        = reconstruct_conversations py_str fuel cfg sessions).
Proof.
  intros H. unfold reconstruct_conversations.
  assert (Hend : reconstruct_sessions py_str fuel cfg sessions []
                 <> OutOfFuel).
  { apply (reconstruct_terminates py_str fuel cfg sessions []).
    intros sid messages Hin.
    destruct (H sid messages Hin) as (Hd & Ht & Hl).
    split; [exact Hd |]. split; [| exact Hl].
    apply truthy_uuids_no_falsy_link. exact Ht. }
  split; [exact Hend |].
  intros fuel' Hle.
  exact (reconstruct_sessions_more_fuel py_str fuel fuel' cfg sessions []
           Hle Hend).
Qed.

Lemma turns_of_length (l : list ref) :
  List.length (turns_of py_str l) <= List.length l.
Proof.
  induction l as [| r l IH]; cbn [turns_of flat_map List.length]; [lia |].
  fold (turns_of py_str l). rewrite length_app.
  destruct (turn_of py_str (snd r)); cbn [List.length]; lia.
Qed.

(** X12: under the same conditions, the conversation of a walk from a root
    has at most as many turns as the session has records. *)
Theorem conversation_length (n : nat) (messages : list dict)
    (msg_map : list json) (roots : list ref) (root : ref)
    (conv : conversation) :
  build_msg_map messages [] = Ret msg_map ->
  find_roots msg_map messages 0 [] = Ret roots ->
  distinct_uuids messages -> truthy_uuids messages ->
  In root roots ->
  walk py_str n messages (Some root, []) = Ret conv ->
  List.length conv <= List.length messages.
Proof.
  intros Hmap Hroots Hd Ht Hin Hw.
  destruct (walk_terminates py_str messages msg_map roots root Hmap Hroots Hd
              (truthy_uuids_no_falsy_link messages Ht) Hin) as [Hnd _].
  specialize (Hnd n).
  apply walk_turns_from in Hw. cbn [snd app] in Hw. subst conv.
  etransitivity; [apply turns_of_length |].
  assert (Hvalid : valid_ref messages root).
  { apply find_roots_filter in Hroots as [-> _]. cbn [app] in Hin.
    apply filter_In in Hin as [Hin _]. destruct root as [i m].
    unfold valid_ref. cbn [fst snd].
    assert (G : forall (l : list dict) (k : nat),
               In (i, m) (combine (seq k (List.length l)) l) ->
               k <= i /\ nth_error l (i - k) = Some m).
    { induction l as [| a l IHl]; intros k Hk; cbn in Hk; [destruct Hk |].
      destruct Hk as [Hk | Hk].
      - injection Hk as -> ->. rewrite Nat.sub_diag. auto.
      - apply IHl in Hk as [Hle Hn]. split; [lia |].
        replace (i - k) with (S (i - S k)) by lia. exact Hn. }
    apply G in Hin as [_ Hn]. now rewrite Nat.sub_0_r in Hn. }
  pose proof (visited_chain py_str n messages (Some root, [])) as Hc.
  destruct (visited py_str n messages (Some root, [])) as [| x l] eqn:E;
    [cbn; lia |].
  pose proof (visited_head py_str _ _ _ _ _ E) as Hx. cbn [fst] in Hx.
  injection Hx as <-.
  apply valid_refs_bound.
  - now apply NoDup_map_inv in Hnd.
  - now apply chain_valid.
Qed.

End SessionsMore.


(** ** The loops of the content extractor *)

Section ExtractionMore.

Variable py_str : json -> string.

Lemma strings_of_all_strings (l : list json) (r : list string) :
  strings_of l = Ret r -> all_strings l = true.
Proof.
  revert r; induction l as [| v l IH]; intros r H; [reflexivity |].
  cbn [strings_of] in H. destruct v; try discriminate.
  apply bind_Ret_inv in H as (r' & Hr & _). cbn. now apply (IH r').
Qed.

Lemma eq_str_text_tool (v : json) :
  eq_str v "text" = true -> eq_str v "tool_use" = false.
Proof.
  destruct v; cbn; try discriminate.
  intros H. apply String.eqb_eq in H. now subst.
Qed.

Lemma user_texts_block_texts (parts texts : list json) :
  user_texts parts texts = texts ++ block_texts parts.
Proof.
  revert texts; induction parts as [| part parts IH]; intros texts;
    cbn [user_texts block_texts flat_map].
  - now rewrite app_nil_r.
  - fold (block_texts parts).
    destruct part; try apply IH.
    destruct (eq_str (get o "type" JNull) "text"); [| apply IH].
    rewrite IH, <- app_assoc. reflexivity.
Qed.

Lemma assistant_blocks_spec (blocks texts : list json)
    (tool_uses : list string) (texts' : list json)
    (tool_uses' : list string) :
  assistant_blocks py_str blocks texts tool_uses = Ret (texts', tool_uses')
  <-> forallb is_obj blocks = true
      /\ texts' = texts ++ block_texts blocks
      /\ tool_uses' = tool_uses ++ block_markers py_str blocks.
Proof.
  revert texts tool_uses; induction blocks as [| block blocks IH];
    intros texts tool_uses;
    cbn [assistant_blocks forallb block_texts block_markers flat_map].
  - rewrite !app_nil_r. split.
    + intros H; injection H as <- <-. auto.
    + intros (_ & -> & ->). reflexivity.
  - fold (block_texts blocks). fold (block_markers py_str blocks).
    destruct block; cbn [attr_get bind is_obj andb];
      try (split; [discriminate | intros [H _]; discriminate]).
    destruct (eq_str (get o "type" JNull) "text") eqn:Et.
    + rewrite (eq_str_text_tool _ Et), IH, <- app_assoc. reflexivity.
    + destruct (eq_str (get o "type" JNull) "tool_use").
      * rewrite IH, <- app_assoc. reflexivity.
      * rewrite IH. reflexivity.
Qed.

(** X13: for a user record whose payload holds a list of blocks, the
    content is the newline-joined texts of the blocks of kind [text], the
    other blocks being skipped; there is no content when no block is of
    kind [text], and [TypeError] is raised when a text is not a string. *)
Theorem user_extract_spec (msg c : dict) (parts : list json) :
  lookup msg "type" = Some (JStr "user") ->
  lookup msg "message" = Some (JObj c) ->
  lookup c "content" = Some (JArr parts) ->
  (forall strs, strings_of (block_texts parts) = Ret strs ->
     extract_content py_str msg
     = Ret (match strs with [] => None | _ => Some (join nl strs) end))
  /\ (all_strings (block_texts parts) = false ->
      extract_content py_str msg = Raise TypeError).
Proof.
  intros Hty Hm Hc.
  assert (E : extract_content py_str msg
              = match block_texts parts with
                | [] => Ret None
                | texts => s <- join_values nl texts ;; Ret (Some s)
                end).
  { unfold extract_content, getitem, get. rewrite Hty, Hm. cbn [bind eq_str].
    cbn [String.eqb Ascii.eqb Bool.eqb]. rewrite Hc. cbn [iterate bind].
    now rewrite user_texts_block_texts. }
  rewrite E. split.
  - intros strs Hs.
    destruct (block_texts parts) as [| t texts].
    + cbn [strings_of] in Hs. now injection Hs as <-.
    + unfold join_values. rewrite Hs. cbn [bind].
      cbn [strings_of] in Hs. destruct t; try discriminate.
      apply bind_Ret_inv in Hs as (r & _ & Hs). now injection Hs as <-.
  - intros Ha. unfold join_values.
    destruct (block_texts parts) as [| t texts]; [discriminate |].
    assert (Hr : strings_of (t :: texts) = Raise TypeError).
    { clear - Ha. revert Ha. generalize (t :: texts) as l.
      induction l as [| v l IH]; [discriminate |].
      cbn. destruct v; auto. intros H. now rewrite (IH H). }
    now rewrite Hr.
Qed.

(** X14: for an assistant record whose payload holds a list of blocks,
    extraction returns exactly when every block is an object and every
    text of a block of kind [text] is a string; the content is then the
    joined texts followed, when there are [tool_use] blocks, by a newline
    and the joined markers, and there is no content when this string is
    blank. *)
Theorem assistant_extract_spec (msg c : dict) (blocks : list json) :
  lookup msg "type" = Some (JStr "assistant") ->
  lookup msg "message" = Some (JObj c) ->
  lookup c "content" = Some (JArr blocks) ->
  ((exists r, extract_content py_str msg = Ret r)
   <-> forallb is_obj blocks = true
       /\ all_strings (block_texts blocks) = true)
  /\ (forall strs, forallb is_obj blocks = true ->
        strings_of (block_texts blocks) = Ret strs ->
        extract_content py_str msg
        = Ret (response_of strs (block_markers py_str blocks))).
Proof.
  intros Hty Hm Hc.
  assert (E : extract_content py_str msg
              = ('(texts, tool_uses) <- assistant_blocks py_str blocks [] [] ;;
                 response <- join_values nl texts ;;
                 Ret (response_of [response] tool_uses))).
  { unfold extract_content, getitem, get. rewrite Hty, Hm.
    cbn [bind eq_str String.eqb Ascii.eqb Bool.eqb attr_get].
    unfold get. rewrite Hc. cbn [iterate bind].
    destruct (assistant_blocks py_str blocks [] []) as [[texts tools] | |];
      cbn [bind]; try reflexivity;
      destruct (join_values nl texts); cbn [bind]; try reflexivity;
      unfold response_of; cbn [join]; now destruct tools. }
  rewrite E. split; [split |].
  - intros [r H].
    apply bind_Ret_inv in H as ([texts tools] & Hb & H).
    apply bind_Ret_inv in H as (response & Hj & _).
    apply assistant_blocks_spec in Hb as (Hobj & -> & _). cbn [app] in Hj.
    split; [exact Hobj |].
    unfold join_values in Hj. apply bind_Ret_inv in Hj as (strs & Hs & _).
    now apply strings_of_all_strings in Hs.
  - intros [Hobj Hs].
    assert (Hb : assistant_blocks py_str blocks [] []
                 = Ret (block_texts blocks, block_markers py_str blocks)).
    { apply assistant_blocks_spec. auto. }
    rewrite Hb. cbn [bind]. unfold join_values.
    destruct (strings_of_total _ Hs) as [strs ->]. cbn [bind]. eauto.
  - intros strs Hobj Hs.
    assert (Hb : assistant_blocks py_str blocks [] []
                 = Ret (block_texts blocks, block_markers py_str blocks)).
    { apply assistant_blocks_spec. auto. }
    rewrite Hb. cbn [bind]. unfold join_values. rewrite Hs. cbn [bind].
    unfold response_of. cbn [join]. reflexivity.
Qed.






End ExtractionMore.

(** ** More on the quality filter *)

Lemma accepts_only_user (cfg : config) (conv : conversation) :
  (forall t, In t conv -> turn_role t = user) -> accepts cfg conv = false.
Proof.
  intros H.
  assert (E : filter is_assistant conv = []).
  { induction conv as [| t conv IH]; [reflexivity |]. cbn [filter].
    unfold is_assistant at 1. rewrite (H t (or_introl eq_refl)).
    apply IH. intros x Hx. apply H. now right. }
  unfold accepts, has_tools, has_reasoning. rewrite E. cbn [existsb orb].
  apply andb_false_r.
Qed.

(** X16: the quality filter never keeps a conversation without a turn of
    the assistant, whatever its length, its words and the thresholds. *)
Theorem filter_quality_needs_assistant (cfg : config)
    (pre post : list conversation) (conv : conversation) :
  (forall t, In t conv -> turn_role t = user) ->
  filter_quality cfg (pre ++ conv :: post) = filter_quality cfg (pre ++ post)
  /\ ~ In conv (filter_quality cfg (pre ++ conv :: post))
  /\ filter_quality cfg [conv] = [].
Proof.
  intros H. pose proof (accepts_only_user cfg conv H) as Ha.
  rewrite !filter_quality_filter, !filter_app. cbn [filter]. rewrite Ha.
  split; [reflexivity |]. split; [| reflexivity].
  rewrite <- filter_app. intros Hin. apply filter_In in Hin as [_ Hin].
  congruence.
Qed.

(** X17: the quality filter works conversation by conversation: it
    distributes over concatenation, it does not read [min_turns], and
    raising [min_tokens] can only remove conversations from its output. *)
Theorem filter_quality_compose (cfg cfg' : config)
    (convs convs' : list conversation) :
  filter_quality cfg (convs ++ convs')
  = filter_quality cfg convs ++ filter_quality cfg convs'
  /\ (min_tokens cfg = min_tokens cfg' ->
      filter_quality cfg convs = filter_quality cfg' convs)
  /\ ((min_tokens cfg <= min_tokens cfg')%Z ->
      filter_quality cfg' convs
      = filter_quality cfg' (filter_quality cfg convs)
      /\ subseq (filter_quality cfg' convs) (filter_quality cfg convs)).
Proof.
  rewrite !filter_quality_filter. split; [apply filter_app |]. split.
  - intros E. apply filter_ext. intros conv. unfold accepts. now rewrite E.
  - intros Hle.
    assert (Himp : forall conv, accepts cfg' conv = true ->
                                accepts cfg conv = true).
    { intros conv. unfold accepts. rewrite !andb_true_iff, !negb_true_iff.
      intros [Ht Hs]. split; [| exact Hs].
      apply Z.ltb_ge. apply Z.ltb_ge in Ht. lia. }
    assert (E : filter (accepts cfg') convs
                = filter (accepts cfg') (filter (accepts cfg) convs)).
    { induction convs as [| conv convs IH]; [reflexivity |]. cbn [filter].
      destruct (accepts cfg' conv) eqn:E'.
      - rewrite (Himp conv E'). cbn [filter]. rewrite E'. now f_equal.
      - destruct (accepts cfg conv); [cbn [filter]; rewrite E' |]; exact IH. }
    split; [exact E |]. rewrite E at 1. apply filter_subseq.
Qed.


(** ** The further properties on the examples *)

Lemma scenario_distinct : distinct_uuids scenario.
Proof.
  intros i j mi mj ui uj Hi Hj Hui Huj Hk. unfold scenario in Hi, Hj.
  destruct i as [| [| [| [| i]]]]; cbn [nth_error] in Hi;
    try (destruct i; discriminate); injection Hi as <-;
    destruct j as [| [| [| [| j]]]]; cbn [nth_error] in Hj;
    try (destruct j; discriminate); injection Hj as <-;
    try reflexivity;
    vm_compute in Hui, Huj; injection Hui as <-; injection Huj as <-;
    vm_compute in Hk; discriminate.
Qed.

Lemma scenario_truthy : truthy_uuids scenario.
Proof.
  intros msg u Hin Hu. unfold scenario in Hin. cbn [In] in Hin.
  destruct Hin as [<- | [<- | [<- | [<- | []]]]];
    vm_compute in Hu; injection Hu as <-; reflexivity.
Qed.

(** [walk_turns] on the scenario. *)
Lemma walk_turns_witness :
  walk example_str 4 scenario (Some (0, R1), []) = Ret scenario_conversation
  /\ scenario_conversation
     = turns_of example_str
         (visited example_str 4 scenario (Some (0, R1), [])).
Proof.
  assert (H : walk example_str 4 scenario (Some (0, R1), [])
              = Ret scenario_conversation) by (vm_compute; reflexivity).
  split; [exact H |].
  destruct (walk_turns example_str 4 scenario (0, R1) scenario_conversation H)
    as [Hturns _].
  exact Hturns.
Defined.

(** [visited_follow_links] on the scenario. *)
Lemma visited_follow_links_witness :
  valid_ref scenario (0, R1)
  /\ Forall (valid_ref scenario)
            (visited example_str 4 scenario (Some (0, R1), [])).
Proof.
  assert (H : valid_ref scenario (0, R1)) by reflexivity.
  split; [exact H |].
  destruct (visited_follow_links example_str 4 scenario (0, R1) [] H)
    as [Hvalid _].
  exact Hvalid.
Defined.

(** [roots_in_order] on the scenario. *)
Lemma roots_in_order_witness :
  find_roots [JStr "r1"; JStr "r2"; JStr "r3"; JStr "r4"] scenario 0 []
  = Ret [(0, R1)]
  /\ List.length [(0, R1)] <= List.length scenario.
Proof.
  assert (H : find_roots [JStr "r1"; JStr "r2"; JStr "r3"; JStr "r4"]
                scenario 0 [] = Ret [(0, R1)]) by reflexivity.
  split; [exact H |].
  destruct (roots_in_order scenario _ _ H) as (_ & Hlen & _).
  exact Hlen.
Defined.

(** [reconstruct_needs_indexable] on the scenario. *)
Lemma reconstruct_needs_indexable_witness :
  reconstruct_conversations example_str 4 default_config
    [(JStr "s1", scenario)] = Ret [scenario_conversation]
  /\ indexable R3.
Proof.
  assert (H : reconstruct_conversations example_str 4 default_config
                [(JStr "s1", scenario)] = Ret [scenario_conversation])
    by (vm_compute; reflexivity).
  split; [exact H |].
  apply (reconstruct_needs_indexable example_str 4 default_config
           [(JStr "s1", scenario)] [scenario_conversation] H
           (JStr "s1") scenario R3).
  - now left.
  - right. right. now left.
Defined.

(** [conversation_count] on the scenario. *)
Lemma conversation_count_witness :
  reconstruct_conversations example_str 4 default_config
    [(JStr "s1", scenario)] = Ret [scenario_conversation]
  /\ List.length [scenario_conversation]
     <= record_count [(JStr "s1", scenario)].
Proof.
  assert (H : reconstruct_conversations example_str 4 default_config
                [(JStr "s1", scenario)] = Ret [scenario_conversation])
    by (vm_compute; reflexivity).
  split; [exact H |].
  exact (conversation_count example_str 4 default_config _ _ H).
Defined.

(** [reconstruction_ends] on the scenario. *)
Lemma reconstruction_ends_witness :
  distinct_uuids scenario /\ truthy_uuids scenario
  /\ List.length scenario <= 4
  /\ reconstruct_conversations example_str 4 default_config
       [(JStr "s1", scenario)] <> OutOfFuel.
Proof.
  split; [exact scenario_distinct |]. split; [exact scenario_truthy |].
  split; [apply le_n |].
  assert (H : forall sid messages,
             In (sid, messages) [(JStr "s1", scenario)] ->
             distinct_uuids messages /\ truthy_uuids messages
             /\ List.length messages <= 4).
  { intros sid messages [E | []]. injection E as _ <-.
    split; [exact scenario_distinct |]. split; [exact scenario_truthy |].
    apply le_n. }
  destruct (reconstruction_ends example_str 4 default_config
              [(JStr "s1", scenario)] H) as [Hend _].
  exact Hend.
Defined.

(** [conversation_length] on the scenario. *)
Lemma conversation_length_witness :
  walk example_str 4 scenario (Some (0, R1), []) = Ret scenario_conversation
  /\ List.length scenario_conversation <= List.length scenario.
Proof.
  assert (H : walk example_str 4 scenario (Some (0, R1), [])
              = Ret scenario_conversation) by (vm_compute; reflexivity).
  split; [exact H |].
  apply (conversation_length example_str 4 scenario
           [JStr "r1"; JStr "r2"; JStr "r3"; JStr "r4"] [(0, R1)] (0, R1)
           scenario_conversation);
    try reflexivity; try exact H.
  - exact scenario_distinct.
  - exact scenario_truthy.
  - now left.
Defined.

(** [user_extract_spec] on [two_texts]. *)
Lemma user_extract_spec_witness :
  lookup two_texts "type" = Some (JStr "user")
  /\ extract_content example_str two_texts
     = Ret (Some ("one" ++ nl ++ "two")%string).
Proof.
  split; [reflexivity |].
  destruct (user_extract_spec example_str two_texts
              [("content",
                JArr [text_block "one"; JObj [("type", JStr "image")];
                      text_block "two"])]
              [text_block "one"; JObj [("type", JStr "image")];
               text_block "two"] eq_refl eq_refl eq_refl) as [H _].
  exact (H ["one"; "two"] eq_refl).
Defined.

(** [assistant_extract_spec] on [edit_twice]. *)
Lemma assistant_extract_spec_witness :
  lookup edit_twice "type" = Some (JStr "assistant")
  /\ extract_content example_str edit_twice
     = Ret (Some ("On it." ++ nl ++ "[TOOL: Read]" ++ nl ++ "[TOOL: Edit]")
              %string).
Proof.
  split; [reflexivity |].
  destruct (assistant_extract_spec example_str edit_twice
              [("content",
                JArr [text_block "On it."; tool_block "Read";
                      tool_block "Edit"])]
              [text_block "On it."; tool_block "Read"; tool_block "Edit"]
              eq_refl eq_refl eq_refl) as [_ H].
  exact (H ["On it."] eq_refl eq_refl).
Defined.


(** [filter_quality_needs_assistant] on a long conversation of the user
    alone, which holds a keyword. *)
Lemma filter_quality_needs_assistant_witness :
  (forall t, In t only_user -> turn_role t = user)
  /\ (50 <= total_tokens only_user)%Z
  /\ filter_quality default_config [only_user] = [].
Proof.
  assert (H : forall t, In t only_user -> turn_role t = user).
  { intros t [<- | []]. reflexivity. }
  split; [exact H |]. split; [vm_compute; discriminate |].
  destruct (filter_quality_needs_assistant default_config [] [] only_user H)
    as (_ & _ & He).
  exact He.
Defined.


(** ** Independence of the sessions *)

Section Independence.

Variable py_str : json -> string.

Lemma build_conversations_acc (fuel : nat) (cfg : config)
    (messages : list dict) (roots : list ref) (acc : list conversation) :
  build_conversations py_str fuel cfg messages roots acc
  = (new <- build_conversations py_str fuel cfg messages roots [] ;;
     Ret (acc ++ new)).
Proof.
  revert acc; induction roots as [| root roots IH]; intros acc;
    cbn [build_conversations bind].
  - now rewrite app_nil_r.
  - destruct (walk py_str fuel messages (Some root, [])) as [conv | e |];
      cbn [bind]; try reflexivity.
    destruct (min_turns cfg <=? Z.of_nat (List.length conv))%Z.
    + rewrite (IH (acc ++ [conv])), (IH ([] ++ [conv])).
      destruct (build_conversations py_str fuel cfg messages roots []);
        cbn [bind app]; try reflexivity.
      now rewrite <- app_assoc.
    + apply IH.
Qed.

Lemma reconstruct_sessions_acc (fuel : nat) (cfg : config)
    (sessions : sessions_t) (acc : list conversation) :
  reconstruct_sessions py_str fuel cfg sessions acc
  = (new <- reconstruct_sessions py_str fuel cfg sessions [] ;;
     Ret (acc ++ new)).
Proof.
  revert acc; induction sessions as [| [sid messages] sessions IH];
    intros acc; cbn [reconstruct_sessions bind].
  - now rewrite app_nil_r.
  - destruct (build_msg_map messages []) as [msg_map | e |]; cbn [bind];
      try reflexivity.
    destruct (find_roots msg_map messages 0 []) as [roots | e |];
      cbn [bind]; try reflexivity.
    rewrite (build_conversations_acc fuel cfg messages roots acc).
    destruct (build_conversations py_str fuel cfg messages roots [])
      as [new | e |]; cbn [bind]; try reflexivity.
    rewrite (IH (acc ++ new)), (IH new).
    destruct (reconstruct_sessions py_str fuel cfg sessions []);
      cbn [bind]; try reflexivity.
    now rewrite <- app_assoc.
Qed.

Lemma reconstruct_sessions_app (fuel : nat) (cfg : config)
    (a b : sessions_t) (acc : list conversation) :
  reconstruct_sessions py_str fuel cfg (a ++ b) acc
  = (mid <- reconstruct_sessions py_str fuel cfg a acc ;;
     reconstruct_sessions py_str fuel cfg b mid).
Proof.
  revert acc; induction a as [| [sid messages] a IH]; intros acc;
    cbn [app reconstruct_sessions bind]; [reflexivity |].
  destruct (build_msg_map messages []) as [msg_map | e |]; cbn [bind];
    try reflexivity.
  destruct (find_roots msg_map messages 0 []) as [roots | e |];
    cbn [bind]; try reflexivity.
  destruct (build_conversations py_str fuel cfg messages roots acc)
    as [acc' | e |]; cbn [bind]; try reflexivity.
  apply IH.
Qed.

(** X18: the sessions are reconstructed one after the other and
    independently: the conversations of a list of sessions are those of
    its first part followed by those of the rest, and the first exception
    or endless walk met in this order is the outcome of the whole. *)
Theorem sessions_independent (fuel : nat) (cfg : config) (a b : sessions_t) :
  reconstruct_conversations py_str fuel cfg (a ++ b)
  = (ca <- reconstruct_conversations py_str fuel cfg a ;;
     cb <- reconstruct_conversations py_str fuel cfg b ;;
     Ret (ca ++ cb)).
Proof.
  unfold reconstruct_conversations. rewrite reconstruct_sessions_app.
  destruct (reconstruct_sessions py_str fuel cfg a []) as [ca | e |];
    cbn [bind]; try reflexivity.
  apply reconstruct_sessions_acc.
Qed.

End Independence.
